(** * angular-snippets: selection tri-state, mockMore and skipUntilNonNull

    A shallow embedding of three helpers of the repository and the
    properties stated about them:

    - [computeSelectionTriStateByCompare] and [computeSelectionTriStateByKey]
      (src/utils/computeSelectionTriState.ts);
    - [MockMorePipe.transform] and [createMock] (the mockMore pipe);
    - [skipUntilNonNull] (src/rxjs/operator/skipUntilNonNull.ts);
    - the other helpers of the repository: the range pipe, the earlier
      mockMore pipe, [numberValidator], the pureClick directive,
      [distinctUntilAnyKeyChanged], the [iifChain] builder and
      [deepUpdate].

    Conventions.  Arrays are lists.  Callbacks handed to the helpers
    (comparators, key extractors, state mappers) are total pure functions.
    A [number] used as a count ([targetSize], [id]) is an integer of [Z];
    a [number] used as a key is an IEEE double, because [NaN] separates the
    [===] of a comparator from the membership test of a [Set].  Limits of
    the engine (maximal array length, call-stack depth of a spread call) are
    not part of the model. *)

From Stdlib Require Import List Bool ZArith Lia Permutation.
From Stdlib Require Import Ascii String.
From Stdlib Require Import PrimFloat SpecFloat FloatOps FloatAxioms.
From Stdlib Require Import DecimalString DecimalNat.
Import ListNotations.

Local Open Scope list_scope.

Set Warnings "-register-all".

(* ================================================================== *)
(** * Part I.  Definitions                                             *)
(* ================================================================== *)

(* ------------------------------------------------------------------ *)
(** ** Selection tri-state                                             *)
(* ------------------------------------------------------------------ *)

(** [type TriState = 'indeterminate' | 'all' | 'none'] *)
Inductive TriState : Type :=
| indeterminate
| all
| none.

(** The value of a key: [string | number]. *)
Inductive Key : Type :=
| KStr (s : string)
| KNum (x : float).

(** [a === b] on keys: code-unit equality of strings, IEEE equality of
    numbers (so [NaN === NaN] is false and [+0 === -0] is true), and false
    across the two types. *)
Definition strictEquals (a b : Key) : bool :=
  match a, b with
  | KStr s, KStr t => String.eqb s t
  | KNum x, KNum y => PrimFloat.eqb x y
  | _, _ => false
  end.

(** SameValueZero, the equality a [Set] compares its elements with: it is
    [===] except that [NaN] equals [NaN]. *)
Definition sameValueZero (a b : Key) : bool :=
  match a, b with
  | KStr s, KStr t => String.eqb s t
  | KNum x, KNum y =>
      PrimFloat.eqb x y || (PrimFloat.is_nan x && PrimFloat.is_nan y)
  | _, _ => false
  end.

Definition isNaN (k : Key) : bool :=
  match k with
  | KNum x => PrimFloat.is_nan x
  | KStr _ => false
  end.

(** The class of a key under SameValueZero: a string is itself, a number is
    its IEEE value with the two zeros identified. *)
Definition normZero (f : SpecFloat.spec_float) : SpecFloat.spec_float :=
  match f with
  | SpecFloat.S754_zero _ => SpecFloat.S754_zero false
  | _ => f
  end.

Definition keyClass (k : Key) : string + SpecFloat.spec_float :=
  match k with
  | KStr s => inl s
  | KNum x => inr (normZero (FloatOps.Prim2SF x))
  end.

(** A [Set<string | number>]: its elements in insertion order, none of them
    twice up to SameValueZero. *)
Definition KeySet : Type := list Key.

Definition Set_has (s : KeySet) (k : Key) : bool :=
  existsb (sameValueZero k) s.

Definition Set_add (s : KeySet) (k : Key) : KeySet :=
  if Set_has s k then s else s ++ [k].

(** [new Set(iterable)] adds the elements from left to right. *)
Definition Set_from (ks : list Key) : KeySet :=
  fold_left Set_add ks [].

Section SelectionTriState.

(** [T] is the item type, [R] the type the state mapper projects to and
    [FieldName] stands for [keyof T]; [readField item key] is the property
    read [item[key] as string | number]. *)
Variables T R FieldName : Type.
Variable readField : T -> FieldName -> Key.

(** The [for (const item of allItems)] loop of
    [computeSelectionTriStateByCompare], from the loop head with the current
    values of the two flags. *)
Fixpoint byCompareLoop (selectedItems : list T) (compareFn : T -> T -> bool)
    (stateMapper : TriState -> R) (items : list T)
    (hasSelected hasUnselected : bool) : R :=
  match items with
  | [] => if hasSelected then stateMapper all else stateMapper none
  | item :: rest =>
      let isSelected :=
        existsb (fun selected => compareFn item selected) selectedItems in
      let hasSelected' := if isSelected then true else hasSelected in
      let hasUnselected' := if isSelected then hasUnselected else true in
      if hasSelected' && hasUnselected'
      then stateMapper indeterminate
      else byCompareLoop selectedItems compareFn stateMapper rest
             hasSelected' hasUnselected'
  end.

Definition computeSelectionTriStateByCompare (allItems selectedItems : list T)
    (compareFn : T -> T -> bool) (stateMapper : TriState -> R) : R :=
  byCompareLoop selectedItems compareFn stateMapper allItems false false.

(** The third parameter of [computeSelectionTriStateByKey]: an extractor
    function or a field name. *)
Inductive KeyOrExtractor : Type :=
| ExtractorFn (f : T -> Key)
| FieldKey (key : FieldName).

(** [typeof keyOrExtractor === 'function' ? keyOrExtractor
      : (item) => item[keyOrExtractor]] *)
Definition extractorOf (keyOrExtractor : KeyOrExtractor) : T -> Key :=
  match keyOrExtractor with
  | ExtractorFn f => f
  | FieldKey key => fun item => readField item key
  end.

(** The loop of [computeSelectionTriStateByKey]. *)
Fixpoint byKeyLoop (selectedKeys : KeySet) (extractor : T -> Key)
    (stateMapper : TriState -> R) (items : list T)
    (hasSelected hasUnselected : bool) : R :=
  match items with
  | [] => if hasSelected then stateMapper all else stateMapper none
  | item :: rest =>
      let key := extractor item in
      let hasSelected' := if Set_has selectedKeys key then true else hasSelected in
      let hasUnselected' := if Set_has selectedKeys key then hasUnselected else true in
      if hasSelected' && hasUnselected'
      then stateMapper indeterminate
      else byKeyLoop selectedKeys extractor stateMapper rest
             hasSelected' hasUnselected'
  end.

Definition computeSelectionTriStateByKey (allItems selectedItems : list T)
    (keyOrExtractor : KeyOrExtractor) (stateMapper : TriState -> R) : R :=
  let extractor := extractorOf keyOrExtractor in
  let selectedKeys := Set_from (map extractor selectedItems) in
  byKeyLoop selectedKeys extractor stateMapper allItems false false.

(** An item matches the selection when some selected item compares equal
    to it. *)
Definition Matches (compareFn : T -> T -> bool) (selectedItems : list T)
    (item : T) : Prop :=
  exists selected, In selected selectedItems /\ compareFn item selected = true.

(** The comparator [(a, b) => k(a) === k(b)]. *)
Definition compareByKey (k : T -> Key) : T -> T -> bool :=
  fun a b => strictEquals (k a) (k b).

(** The comparator that compares keys the way the key set does. *)
Definition compareBySameValueZero (k : T -> Key) : T -> T -> bool :=
  fun a b => sameValueZero (k a) (k b).

End SelectionTriState.

Arguments byCompareLoop {T R} _ _ _ _ _ _.
Arguments computeSelectionTriStateByCompare {T R} _ _ _ _.
Arguments ExtractorFn {T FieldName} _.
Arguments FieldKey {T FieldName} _.
Arguments extractorOf {T FieldName} _ _.
Arguments byKeyLoop {T R} _ _ _ _ _ _.
Arguments computeSelectionTriStateByKey {T R FieldName} _ _ _ _ _.
Arguments Matches {T} _ _ _.
Arguments compareByKey {T} _.
Arguments compareBySameValueZero {T} _.

(** The state two flags stand for once the loop is over: whether some item
    was selected and whether some item was not. *)
Definition stateOfFlags {R : Type} (stateMapper : TriState -> R)
    (someSelected someUnselected : bool) : R :=
  if someSelected && someUnselected then stateMapper indeterminate
  else if someSelected then stateMapper all
  else stateMapper none.

(** [selectedItems.some(selected => compareFn(item, selected))] *)
Definition isSelectedBy {T : Type} (compareFn : T -> T -> bool)
    (selectedItems : list T) (item : T) : bool :=
  existsb (fun selected => compareFn item selected) selectedItems.

(** The defaults of the optional parameters: [(state) => state] for the
    state mapper. *)
Definition defaultStateMapper : TriState -> TriState := fun state => state.

(** Items used in examples: an item is its own numeric key and has no named
    field. *)
Definition scoreOf : KeyOrExtractor float Empty_set :=
  ExtractorFn (fun score => KNum score).

Definition noField (item : float) (key : Empty_set) : Key :=
  match key with end.

(* ------------------------------------------------------------------ *)
(** ** The mockMore pipe                                               *)
(* ------------------------------------------------------------------ *)

(** The well-known symbols a property key can be. *)
Inductive Symbol : Type :=
| SymToPrimitive
| SymIterator
| SymToStringTag.

(** A property key as a [get] trap receives it: a string (an index is the
    string of its digits) or a symbol. *)
Inductive PropertyKey : Type :=
| PStr (name : string)
| PSym (sym : Symbol).

(** The values the pipe handles.  [VMock id displayToken] is the [Proxy]
    built by one call of [createMock]: [id] is its identity and
    [displayToken] the variable its handler closes over.
    [VToPrimitiveFn displayToken] is the closure [() => displayToken] the
    [get] trap answers [Symbol.toPrimitive] with.  [VObject] is a plain
    record, its own properties in insertion order. *)
Inductive Value : Type :=
| VUndefined
| VNumber (n : Z)
| VString (s : string)
| VObject (props : list (string * Value))
| VMock (id : nat) (displayToken : string)
| VToPrimitiveFn (displayToken : string).

Inductive JsError : Type :=
| TypeError.

(** The outcome of an operation that may throw. *)
Inductive Completion (A : Type) : Type :=
| Normal (a : A)
| Throw (e : JsError).

Arguments Normal {A} _.
Arguments Throw {A} _.

(** *** The handler of [createMock] *)

(** [get: (_, prop) => prop === Symbol.toPrimitive ? () => displayToken
                                                    : proxy] *)
Definition mock_get (proxy : Value) (displayToken : string)
    (prop : PropertyKey) : Value :=
  match prop with
  | PSym SymToPrimitive => VToPrimitiveFn displayToken
  | _ => proxy
  end.

(** [apply: () => proxy] *)
Definition mock_apply (proxy : Value) (args : list Value) : Value := proxy.

(** [ownKeys: () => []] *)
Definition mock_ownKeys : list string := [].

(** Allocation of proxies: a computation takes the next free identity and
    returns the one after those it used. *)
Definition Alloc (A : Type) : Type := nat -> A * nat.

Definition ret {A : Type} (a : A) : Alloc A := fun next => (a, next).

Definition bind {A B : Type} (m : Alloc A) (k : A -> Alloc B) : Alloc B :=
  fun next => let (a, next') := m next in k a next'.

Notation "x <- m ;; k" := (bind m (fun x => k))
  (at level 61, m at next level, right associativity).

(** [createMock(displayToken)]: a new proxy whose traps are [mock_get],
    [mock_apply] and [mock_ownKeys]. *)
Definition createMock (displayToken : string) : Alloc Value :=
  fun next => (VMock next displayToken, S next).

(** *** Structural operations on values

    Property reads follow own data properties only: the inherited members
    of the built-in prototypes, and the own properties of strings and of
    functions, are not modelled and read as [undefined]. *)

Fixpoint lookupProperty (props : list (string * Value)) (name : string)
    : option Value :=
  match props with
  | [] => None
  | (k, v) :: rest =>
      if String.eqb k name then Some v else lookupProperty rest name
  end.

(** [v[prop]] *)
Definition js_get (v : Value) (prop : PropertyKey) : Completion Value :=
  match v with
  | VUndefined => Throw TypeError
  | VMock _ displayToken => Normal (mock_get v displayToken prop)
  | VObject props =>
      match prop with
      | PStr name =>
          match lookupProperty props name with
          | Some x => Normal x
          | None => Normal VUndefined
          end
      | PSym _ => Normal VUndefined
      end
  | VNumber _ | VString _ | VToPrimitiveFn _ => Normal VUndefined
  end.

(** [v(...args)] *)
Definition js_call (v : Value) (args : list Value) : Completion Value :=
  match v with
  | VMock _ _ => Normal (mock_apply v args)
  | VToPrimitiveFn displayToken => Normal (VString displayToken)
  | _ => Throw TypeError
  end.

Definition indexKeys (n : nat) : list string :=
  map (fun i => NilEmpty.string_of_uint (Nat.to_uint i)) (seq 0 n).

(** [Object.keys(v)] *)
Definition js_ownKeys (v : Value) : Completion (list string) :=
  match v with
  | VUndefined => Throw TypeError
  | VMock _ _ => Normal mock_ownKeys
  | VObject props => Normal (map fst props)
  | VString s => Normal (indexKeys (String.length s))
  | VNumber _ | VToPrimitiveFn _ => Normal []
  end.

Definition isObject (v : Value) : bool :=
  match v with
  | VObject _ | VMock _ _ | VToPrimitiveFn _ => true
  | _ => false
  end.

(** ToPrimitive: a primitive is returned as it is; an object is asked for
    its [Symbol.toPrimitive] method, which is called when there is one; the
    ordinary conversion of the two other kinds of object gives their usual
    strings. *)
Definition js_toPrimitive (v : Value) : Completion Value :=
  if isObject v then
    match js_get v (PSym SymToPrimitive) with
    | Throw e => Throw e
    | Normal VUndefined =>
        match v with
        | VToPrimitiveFn _ => Normal (VString "() => displayToken")
        | _ => Normal (VString "[object Object]")
        end
    | Normal exoticToPrim =>
        match js_call exoticToPrim [] with
        | Throw e => Throw e
        | Normal result =>
            if isObject result then Throw TypeError else Normal result
        end
    end
  else Normal v.

(** String conversion and template interpolation: ToPrimitive, then the
    string of the primitive. *)
Definition js_toString (v : Value) : Completion string :=
  match js_toPrimitive v with
  | Throw e => Throw e
  | Normal (VString s) => Normal s
  | Normal (VNumber n) => Normal (NilZero.string_of_int (Z.to_int n))
  | Normal _ => Normal "undefined"%string
  end.

(** One step of a chain such as [x.a.b()[0]]. *)
Inductive Access : Type :=
| Get (prop : PropertyKey)
| Call (args : list Value).

Definition js_access (v : Value) (a : Access) : Completion Value :=
  match a with
  | Get prop => js_get v prop
  | Call args => js_call v args
  end.

(** A chain of accesses, left to right; the first error ends it. *)
Fixpoint js_chain (v : Value) (chain : list Access) : Completion Value :=
  match chain with
  | [] => Normal v
  | a :: rest =>
      match js_access v a with
      | Normal v' => js_chain v' rest
      | Throw e => Throw e
      end
  end.

(** The accesses other than the read of [Symbol.toPrimitive], which the
    [get] trap sets apart. *)
Definition plainAccess (a : Access) : bool :=
  match a with
  | Get (PSym SymToPrimitive) => false
  | _ => true
  end.

(** *** [MockMorePipe.transform] *)

(** The second parameter: omitted, one field name, or an array of them. *)
Inductive FieldsOrField : Type :=
| FieldsOmitted
| OneField (field : string)
| FieldArray (fields : list string).

(** [Array.isArray(fieldsOrField) ? fieldsOrField
      : fieldsOrField ? [fieldsOrField] : []]; the empty string is falsy. *)
Definition fieldsOf (fieldsOrField : FieldsOrField) : list string :=
  match fieldsOrField with
  | FieldArray fields => fields
  | OneField field => if String.eqb field "" then [] else [field]
  | FieldsOmitted => []
  end.

(** [base[name] = v] for a name other than [__proto__]: an own property is
    overwritten where it stands, a new one is added last.  For the name
    [__proto__] the assignment runs the setter of [Object.prototype]: it
    adds no own property and makes [v] the prototype of [base].  That case
    is not modelled, and what is stated about the records of the pipe is
    stated for field names other than [__proto__].  (A computed key of an
    object literal, [{ [name]: v }], defines an own property whatever the
    name is.) *)
Fixpoint setProperty (props : list (string * Value)) (name : string)
    (v : Value) : list (string * Value) :=
  match props with
  | [] => [(name, v)]
  | (k, x) :: rest =>
      if String.eqb k name then (k, v) :: rest
      else (k, x) :: setProperty rest name v
  end.

(** [for (const f of fields) base[f] = createMock(mockLabel)] *)
Fixpoint assignMocks (fields : list string) (mockLabel : string)
    (base : list (string * Value)) : Alloc (list (string * Value)) :=
  match fields with
  | [] => ret base
  | f :: rest =>
      m <- createMock mockLabel ;;
      assignMocks rest mockLabel (setProperty base f m)
  end.

(** The callback given to [Array.from]: the record of index [i]. *)
Definition mockRecord (fields : list string) (mockLabel : string) (i : nat)
    : Alloc Value :=
  let base := [("id"%string, VNumber (Z.of_nat i))] in
  base' <- (if (0 <? List.length fields)%nat
            then assignMocks fields mockLabel base
            else ret base) ;;
  ret (VObject base').

(** ToLength of an integer: negative lengths count as zero (the upper
    clamp at 2^53 - 1 lies beyond the arrays an engine can build). *)
Definition ToLength (n : Z) : nat := Z.to_nat n.

Fixpoint arrayFromLoop (mapFn : nat -> Alloc Value) (i count : nat)
    : Alloc (list Value) :=
  match count with
  | O => ret []
  | S count' =>
      x <- mapFn i ;;
      xs <- arrayFromLoop mapFn (S i) count' ;;
      ret (x :: xs)
  end.

(** [Array.from({ length }, (_, i) => mapFn(i))] *)
Definition Array_from (length : Z) (mapFn : nat -> Alloc Value)
    : Alloc (list Value) :=
  arrayFromLoop mapFn 0 (ToLength length).

(** [while (result.length < targetSize) result.push(...value)], with a
    bound on the number of iterations: [None] when the bound is used up
    before the condition fails. *)
Fixpoint growLoop (fuel : nat) (value : list Value) (targetSize : Z)
    (result : list Value) : option (list Value) :=
  if (Z.of_nat (List.length result) <? targetSize)%Z then
    match fuel with
    | O => None
    | S fuel' => growLoop fuel' value targetSize (result ++ value)
    end
  else Some result.

(** What [transform] returns: the array it was given, or a new one. *)
Inductive Returned : Type :=
| Input
| Fresh (elems : list Value).

(** The elements of the returned array, [value] being the input. *)
Definition contents (value : list Value) (r : Returned) : list Value :=
  match r with
  | Input => value
  | Fresh elems => elems
  end.

Definition transform (fuel : nat) (value : list Value)
    (fieldsOrField : FieldsOrField) (targetSize : Z) (mockLabel : string)
    (next : nat) : option (Returned * nat) :=
  let currentLength := Z.of_nat (List.length value) in
  if (currentLength =? 0)%Z then
    let fields := fieldsOf fieldsOrField in
    let (records, next') :=
      Array_from targetSize (mockRecord fields mockLabel) next in
    Some (Fresh records, next')
  else if (currentLength <? targetSize)%Z then
    match growLoop fuel value targetSize value with
    | Some result => Some (Fresh result, next)
    | None => None
    end
  else Some (Input, next).

(** The defaults of the optional parameters. *)
Definition defaultTargetSize : Z := 100.
Definition defaultMockLabel : string := "mock".

(** [transform] as the template calls it, the trailing arguments present or
    not: [targetSize: number = 100, mockLabel: string = 'mock']. *)
Definition transformWithDefaults (fuel : nat) (value : list Value)
    (fieldsOrField : FieldsOrField) (targetSize : option Z)
    (mockLabel : option string) (next : nat) : option (Returned * nat) :=
  transform fuel value fieldsOrField
    (match targetSize with Some n => n | None => defaultTargetSize end)
    (match mockLabel with Some l => l | None => defaultMockLabel end)
    next.

(** [ceil(targetSize / n)] for a positive [n]. *)
Definition ceilDiv (targetSize n : Z) : Z := (targetSize + n - 1) / n.

(** [k] copies of [value], one after the other. *)
Definition copies (k : nat) (value : list Value) : list Value :=
  List.concat (List.repeat value k).

(* ------------------------------------------------------------------ *)
(** ** skipUntilNonNull                                                *)
(* ------------------------------------------------------------------ *)

Section SkipUntilNonNull.

Variable T : Type.

(** [T | null | undefined] *)
Inductive Nullable : Type :=
| JsNull
| JsUndefined
| NonNull (x : T).

(** [value != null] *)
Definition notNullish (value : Nullable) : bool :=
  match value with
  | NonNull _ => true
  | _ => false
  end.

(** The predicate given to [filter].  [hasEmitted] is the variable of the
    enclosing call of [skipUntilNonNull()]; the predicate returns its
    answer and the variable's new value. *)
Definition predicate (hasEmitted : bool) (value : Nullable) : bool * bool :=
  if hasEmitted then (true, hasEmitted)
  else if notNullish value then (true, true)
  else (false, hasEmitted).

(** One subscription to [source.pipe(filter(predicate))] for a source that
    emits the values of the list: the values passed on, and [hasEmitted]
    afterwards. *)
Fixpoint subscribe (hasEmitted : bool) (source : list Nullable)
    : list Nullable * bool :=
  match source with
  | [] => ([], hasEmitted)
  | value :: rest =>
      let (keep, hasEmitted') := predicate hasEmitted value in
      let (out, final) := subscribe hasEmitted' rest in
      (if keep then value :: out else out, final)
  end.

(** [skipUntilNonNull()] starts with [let hasEmitted = false]. *)
Definition initialHasEmitted : bool := false.

(** The subscriptions to one piped observable, one after the other: they
    share the variable of the one call of [skipUntilNonNull()]. *)
Fixpoint subscriptions (hasEmitted : bool) (sources : list (list Nullable))
    : list (list Nullable) :=
  match sources with
  | [] => []
  | source :: rest =>
      let (out, hasEmitted') := subscribe hasEmitted source in
      out :: subscriptions hasEmitted' rest
  end.

(** The longest prefix of [null] and [undefined] values removed. *)
Fixpoint dropNullishPrefix (source : list Nullable) : list Nullable :=
  match source with
  | [] => []
  | value :: rest =>
      if notNullish value then source else dropNullishPrefix rest
  end.

End SkipUntilNonNull.

Arguments JsNull {T}.
Arguments JsUndefined {T}.
Arguments NonNull {T} _.
Arguments notNullish {T} _.
Arguments predicate {T} _ _.
Arguments subscribe {T} _ _.
Arguments subscriptions {T} _ _.
Arguments dropNullishPrefix {T} _.

(* ------------------------------------------------------------------ *)
(** ** The range pipe                                                  *)
(* ------------------------------------------------------------------ *)

(** What a call ends with: a returned value or [throw new Error(message)]. *)
Inductive Outcome (A : Type) : Type :=
| Returns (a : A)
| ThrowsError (message : string).

Arguments Returns {A} _.
Arguments ThrowsError {A} _.

(** [Number.MAX_SAFE_INTEGER], 2^53 - 1, and the integers a double holds
    with their neighbours: [Number.isSafeInteger]. *)
Definition MAX_SAFE_INTEGER : Z := 9007199254740991.

Definition safeInteger (n : Z) : Prop :=
  (- MAX_SAFE_INTEGER <= n <= MAX_SAFE_INTEGER)%Z.

Module RangePipe.

(** The loops below count on integers.  The source counts on doubles, and
    [i += step] rounds once the sum leaves the integers a double holds
    exactly: the loops are those of the source for [start], [stop] and
    [step] that are safe integers.  There every counter the loop pushes lies
    between [start] and [stop], so it is the exact sum; and a sum beyond
    [stop] stays beyond it when rounded, [stop] being a double itself.  What
    is stated about the loops is stated for safe integers. *)

(** [for (let i = start; i < stop; i += step) result.push(i)], from the
    loop test with the current [i], with a bound on the iterations. *)
Fixpoint countUp (fuel : nat) (i stop step : Z) (result : list Z)
    : option (list Z) :=
  if (i <? stop)%Z then
    match fuel with
    | O => None
    | S fuel' => countUp fuel' (i + step)%Z stop step (result ++ [i])
    end
  else Some result.

(** [for (let i = start; i > stop; i += step) result.push(i)] *)
Fixpoint countDown (fuel : nat) (i stop step : Z) (result : list Z)
    : option (list Z) :=
  if (i >? stop)%Z then
    match fuel with
    | O => None
    | S fuel' => countDown fuel' (i + step)%Z stop step (result ++ [i])
    end
  else Some result.

(** [transform(startOrStop, stop?, step = 1)] on integers; [None] stands
    for an argument that is [undefined]. *)
Definition transform (fuel : nat) (startOrStop : Z) (stop step : option Z)
    : option (Outcome (list Z)) :=
  let step := match step with Some s => s | None => 1%Z end in
  match stop with
  | None =>
      Some (Returns (map Z.of_nat (seq 0 (ToLength startOrStop))))
  | Some stop =>
      let start := startOrStop in
      if (step =? 0)%Z then Some (ThrowsError "Step cannot be zero")
      else if (step >? 0)%Z
        then option_map Returns (countUp fuel start stop step [])
        else option_map Returns (countDown fuel start stop step [])
  end.

End RangePipe.

(** [start, start + step, ...], [count] numbers. *)
Definition arithmeticList (start step : Z) (count : nat) : list Z :=
  map (fun j => (start + Z.of_nat j * step)%Z) (seq 0 count).

(* ------------------------------------------------------------------ *)
(** ** The earlier mockMore pipe, with its fixed target size           *)
(* ------------------------------------------------------------------ *)

Module MockMorePipe0.

(** [private static readonly TARGET_SIZE = 100] *)
Definition TARGET_SIZE : Z := 100.

(** The callback given to [Array.from]: [{ id: i, [field]: 'dummy' }] when
    [field] is truthy, [{ id: i }] otherwise. *)
Definition dummyRecord (field : option string) (i : nat) : Value :=
  match field with
  | Some name =>
      if String.eqb name "" then VObject [("id"%string, VNumber (Z.of_nat i))]
      else VObject (setProperty [("id"%string, VNumber (Z.of_nat i))] name
                      (VString "dummy"))
  | None => VObject [("id"%string, VNumber (Z.of_nat i))]
  end.

Definition transform (fuel : nat) (value : list Value) (field : option string)
    : option Returned :=
  let currentLength := Z.of_nat (List.length value) in
  if (currentLength =? 0)%Z then
    Some (Fresh (map (dummyRecord field) (seq 0 (ToLength TARGET_SIZE))))
  else if (currentLength <? TARGET_SIZE)%Z then
    match growLoop fuel value TARGET_SIZE value with
    | Some result => Some (Fresh result)
    | None => None
    end
  else Some Input.

End MockMorePipe0.

(* ------------------------------------------------------------------ *)
(** ** numberValidator                                                 *)
(* ------------------------------------------------------------------ *)

(** ['gt' | 'ge' | 'lt' | 'le' | 'eq'] *)
Inductive Operator : Type :=
| op_gt
| op_ge
| op_lt
| op_le
| op_eq.

(** The error objects of the validator: [{ nullInput: true }] and
    [{ numberValidator: { operator, expected, actual } }]. *)
Inductive NumberValidationErrors : Type :=
| nullInput
| numberValidatorError (operator : Operator) (expected actual : float).

(** The [switch (op)] of the validator: [value > limit] and the like, on
    IEEE doubles. *)
Definition satisfies (op : Operator) (value limit : float) : bool :=
  match op with
  | op_gt => PrimFloat.ltb limit value
  | op_ge => PrimFloat.leb limit value
  | op_lt => PrimFloat.ltb value limit
  | op_le => PrimFloat.leb value limit
  | op_eq => PrimFloat.eqb value limit
  end.

(** [numberValidator(limit, op)] applied to a control whose value is
    [value]; [None] is the [null] of a valid control. *)
Definition numberValidator (limit : float) (op : Operator)
    (value : Nullable float) : option NumberValidationErrors :=
  match value with
  | NonNull value =>
      let isValid := satisfies op value limit in
      if isValid then None else Some (numberValidatorError op limit value)
  | _ => Some nullInput
  end.

(* ------------------------------------------------------------------ *)
(** ** The pureClick directive                                         *)
(* ------------------------------------------------------------------ *)

Module PureClickDirective.

(** What the directive reads of a [PointerEvent]. *)
Record PointerEvent : Type := {
  clientX : float;
  clientY : float
}.

(** The fields of the directive. *)
Record State : Type := {
  threshold : float;
  startX : float;
  startY : float;
  moved : bool
}.

(** [threshold = signal(4)], [startX = 0], [startY = 0],
    [moved = signal(false)]. *)
Definition initial : State :=
  {| threshold := 4; startX := 0; startY := 0; moved := false |}.

Definition onPointerDown (s : State) (event : PointerEvent) : State :=
  {| threshold := threshold s;
     startX := clientX event;
     startY := clientY event;
     moved := false |}.

(** [dx > threshold || dy > threshold] for the pointer at [event] and the
    start at [(startX, startY)]. *)
Definition beyond (threshold startX startY : float) (event : PointerEvent)
    : bool :=
  let dx := PrimFloat.abs (clientX event - startX)%float in
  let dy := PrimFloat.abs (clientY event - startY)%float in
  PrimFloat.ltb threshold dx || PrimFloat.ltb threshold dy.

Definition onPorinterMove (s : State) (event : PointerEvent) : State :=
  if moved s then s
  else if beyond (threshold s) (startX s) (startY s) event
  then {| threshold := threshold s; startX := startX s; startY := startY s;
          moved := true |}
  else s.

(** [onPointerUp] changes no field; it returns the events given to
    [pureClick.emit]. *)
Definition onPointerUp (s : State) (event : PointerEvent)
    : list PointerEvent :=
  if negb (moved s) then [event] else [].

(** The host bindings: [(pointerdown)], [(pointermove)], [(pointerup)]. *)
Inductive HostEvent : Type :=
| pointerdown (event : PointerEvent)
| pointermove (event : PointerEvent)
| pointerup (event : PointerEvent).

(** The directive run on a sequence of host events: the events emitted
    through [pureClick], and the state afterwards. *)
Fixpoint run (s : State) (events : list HostEvent)
    : list PointerEvent * State :=
  match events with
  | [] => ([], s)
  | pointerdown e :: rest => run (onPointerDown s e) rest
  | pointermove e :: rest => run (onPorinterMove s e) rest
  | pointerup e :: rest =>
      let (emitted, final) := run s rest in
      (onPointerUp s e ++ emitted, final)
  end.

End PureClickDirective.

(* ------------------------------------------------------------------ *)
(** ** distinctUntilAnyKeyChanged                                      *)
(* ------------------------------------------------------------------ *)

(** The value of a field of a stream item, as [===] sees it: a primitive,
    or an object known by its identity. *)
Inductive FieldValue : Type :=
| FUndefined
| FNull
| FBoolean (b : bool)
| FNumber (x : float)
| FString (s : string)
| FReference (ref : nat).

(** [a === b] on field values. *)
Definition fieldStrictEquals (a b : FieldValue) : bool :=
  match a, b with
  | FUndefined, FUndefined => true
  | FNull, FNull => true
  | FBoolean x, FBoolean y => Bool.eqb x y
  | FNumber x, FNumber y => PrimFloat.eqb x y
  | FString s, FString t => String.eqb s t
  | FReference r, FReference r' => Nat.eqb r r'
  | _, _ => false
  end.

(** An item of the stream: [null], [undefined], or an object given by its
    own fields. *)
Definition StreamItem : Type := Nullable (list (string * FieldValue)).

(** [item[key]]: the field, [undefined] when there is none. *)
Fixpoint readField (fields : list (string * FieldValue)) (key : string)
    : FieldValue :=
  match fields with
  | [] => FUndefined
  | (k, v) :: rest => if String.eqb k key then v else readField rest key
  end.

(** The comparator given to [distinctUntilChanged]:
    [if (!prev || !curr) return prev === curr], then the test of every
    compared key, the keys being those given or, when none is given, the
    keys of both objects. *)
Definition sameOnKeys (keys : list string) (prev curr : StreamItem) : bool :=
  match prev, curr with
  | NonNull p, NonNull c =>
      let compareKeys :=
        if (0 <? List.length keys)%nat then keys
        else nodup string_dec (map fst p ++ map fst c) in
      forallb (fun key => fieldStrictEquals (readField p key) (readField c key))
        compareKeys
  | JsNull, JsNull => true
  | JsUndefined, JsUndefined => true
  | _, _ => false
  end.

Section DistinctUntilChanged.

Variable A : Type.
Variable comparator : A -> A -> bool.

(** What [distinctUntilChanged(comparator)] does with the values after the
    first: a value is passed on, and becomes the previous value, when the
    comparator does not find it equal to the previous value. *)
Fixpoint distinctAfter (previous : A) (source : list A) : list A :=
  match source with
  | [] => []
  | value :: rest =>
      if comparator previous value then distinctAfter previous rest
      else value :: distinctAfter value rest
  end.

(** One subscription: the first value is always passed on. *)
Definition distinctUntilChanged (source : list A) : list A :=
  match source with
  | [] => []
  | value :: rest => value :: distinctAfter value rest
  end.

End DistinctUntilChanged.

Arguments distinctAfter {A} _ _ _.
Arguments distinctUntilChanged {A} _ _.

(** [distinctUntilAnyKeyChanged(...keys)] applied to a source. *)
Definition distinctUntilAnyKeyChanged (keys : list string)
    (source : list StreamItem) : list StreamItem :=
  distinctUntilChanged (sameOnKeys keys) source.

(** An item with its other fields forgotten: [null] and [undefined] stay,
    an object keeps the fields named by [keys]. *)
Definition onlyKeys (keys : list string) (item : StreamItem) : StreamItem :=
  match item with
  | NonNull fields => NonNull (map (fun key => (key, readField fields key)) keys)
  | JsNull => JsNull
  | JsUndefined => JsUndefined
  end.

(* ------------------------------------------------------------------ *)
(** ** iifChain                                                        *)
(* ------------------------------------------------------------------ *)

Module IifChainBuilder.

Section Builder.

(** [T] is the type of the values; [Obs] stands for [Observable<T>] and
    [ofValue] for rxjs's [of]; [Env] is what the conditions read when they
    are called, and [isNull v] is [v === null]. *)
Variables T Obs Env : Type.
Variable ofValue : T -> Obs.
Variable isNull : T -> bool.

(** [T | Observable<T>] *)
Inductive Result : Type :=
| Plain (value : T)
| Stream (observable : Obs).

(** [{ condition: () => boolean; result: T | Observable<T> }] *)
Record Case : Type := {
  condition : Env -> bool;
  result : Result
}.

(** The fields of the builder; [elseCase = None] is [null]. *)
Record Builder : Type := {
  cases : list Case;
  elseCase : option Result
}.

(** [iifChain()]: [cases = []], [elseCase = null]. *)
Definition iifChain : Builder := {| cases := []; elseCase := None |}.

(** [this.cases.push({ condition, result }); return this] *)
Definition case (b : Builder) (condition : Env -> bool) (result : Result)
    : Builder :=
  {| cases := cases b ++ [{| condition := condition; result := result |}];
     elseCase := elseCase b |}.

(** [this.elseCase = result; return this]: a [null] result leaves the
    field [null]. *)
Definition else_ (b : Builder) (result : Result) : Builder :=
  {| cases := cases b;
     elseCase := match result with
                 | Plain v => if isNull v then None else Some result
                 | Stream _ => Some result
                 end |}.

(** [isObservable(value) ? value : of(value)] *)
Definition toObservable (value : Result) : Obs :=
  match value with
  | Stream observable => observable
  | Plain v => ofValue v
  end.

(** The [for] loop of the function given to [defer]: the result of the
    first case whose condition holds. *)
Fixpoint firstMatch (env : Env) (cs : list Case) : option Result :=
  match cs with
  | [] => None
  | c :: rest => if condition c env then Some (result c) else firstMatch env rest
  end.

(** One subscription to [build()]: the function given to [defer] is run
    with the builder as it is then, and returns an observable or throws. *)
Definition build (b : Builder) (env : Env) : Outcome Obs :=
  match firstMatch env (cases b) with
  | Some r => Returns (toObservable r)
  | None =>
      match elseCase b with
      | Some r => Returns (toObservable r)
      | None =>
          ThrowsError "No condition matched and no else case provided."
      end
  end.

(** A chained call of the builder. *)
Inductive Call : Type :=
| CallCase (condition : Env -> bool) (result : Result)
| CallElse (result : Result).

Definition call (b : Builder) (c : Call) : Builder :=
  match c with
  | CallCase condition result => case b condition result
  | CallElse result => else_ b result
  end.

(** [b.call1(...).call2(...)...] *)
Definition chain (b : Builder) (calls : list Call) : Builder :=
  fold_left call calls b.

Definition isCallCase (c : Call) : bool :=
  match c with
  | CallCase _ _ => true
  | CallElse _ => false
  end.

(** No case among the calls has a condition that holds in [env]. *)
Definition noCaseHolds (env : Env) (calls : list Call) : bool :=
  forallb (fun c => match c with
                    | CallCase condition _ => negb (condition env)
                    | CallElse _ => true
                    end) calls.

End Builder.

Arguments Plain {T Obs} _.
Arguments Stream {T Obs} _.
Arguments condition {T Obs Env} _ _.
Arguments result {T Obs Env} _.
Arguments cases {T Obs Env} _.
Arguments elseCase {T Obs Env} _.
Arguments iifChain {T Obs Env}.
Arguments case {T Obs Env} _ _ _.
Arguments else_ {T Obs Env} _ _ _.
Arguments toObservable {T Obs} _ _.
Arguments firstMatch {T Obs Env} _ _.
Arguments build {T Obs Env} _ _ _.
Arguments CallCase {T Obs Env} _ _.
Arguments CallElse {T Obs Env} _.
Arguments call {T Obs Env} _ _ _.
Arguments chain {T Obs Env} _ _ _.
Arguments isCallCase {T Obs Env} _.
Arguments noCaseHolds {T Obs Env} _ _.

End IifChainBuilder.

(* ------------------------------------------------------------------ *)
(** ** deepUpdate                                                      *)
(* ------------------------------------------------------------------ *)

(** The values [deepUpdate] meets: primitives, plain objects (their own
    properties, each name once) and arrays.  Objects are read by property
    name; the place an engine gives integer-like names in an enumeration is
    not modelled.  Functions, dates and other exotic objects are outside
    the model. *)
Inductive Json : Type :=
| JUndefined
| JNull
| JBoolean (b : bool)
| JNumber (x : float)
| JString (s : string)
| JObject (props : list (string * Json))
| JArray (elems : list Json).

(** [typeof v === 'object' && v != null] *)
Definition isObjectType (v : Json) : bool :=
  match v with
  | JObject _ | JArray _ => true
  | _ => false
  end.

Fixpoint lookupEntry (props : list (string * Json)) (key : string) : option Json :=
  match props with
  | [] => None
  | (k, v) :: rest => if String.eqb k key then Some v else lookupEntry rest key
  end.

(** [obj[key]], [undefined] when there is no such property. *)
Definition getEntry (props : list (string * Json)) (key : string) : Json :=
  match lookupEntry props key with
  | Some v => v
  | None => JUndefined
  end.

(** [{ ...obj, [key]: v }]: the property is overwritten where it stands, or
    added last. *)
Fixpoint setEntry (props : list (string * Json)) (key : string) (v : Json)
    : list (string * Json) :=
  match props with
  | [] => [(key, v)]
  | (k, x) :: rest =>
      if String.eqb k key then (k, v) :: rest else (k, x) :: setEntry rest key v
  end.

(** The property name of an array index. *)
Definition indexKey (i : nat) : string :=
  NilEmpty.string_of_uint (Nat.to_uint i).

Fixpoint indexedFrom (i : nat) (elems : list Json) : list (string * Json) :=
  match elems with
  | [] => []
  | e :: rest => (indexKey i, e) :: indexedFrom (S i) rest
  end.

Fixpoint charsOf (s : string) : list Json :=
  match s with
  | EmptyString => []
  | String c rest => JString (String c EmptyString) :: charsOf rest
  end.

(** The own enumerable properties of a value: what [{ ...v }] copies and
    what [Object.entries(v)] lists. *)
Definition ownEntries (v : Json) : list (string * Json) :=
  match v with
  | JObject props => props
  | JArray elems => indexedFrom 0 elems
  | JString s => indexedFrom 0 (charsOf s)
  | _ => []
  end.

(** The body of [deepUpdate] for a patch that is not [null] or
    [undefined]: [updatedObj] starts as [{ ...originalObj }] and takes the
    entries of the patch one by one, an object or an array being merged
    into the value already there. *)
Fixpoint merge (originalObj patchObj : Json) {struct patchObj} : Json :=
  match patchObj with
  | JObject entries =>
      JObject
        ((fix loop (entries : list (string * Json))
              (updatedObj : list (string * Json)) : list (string * Json) :=
            match entries with
            | [] => updatedObj
            | (key, patchValue) :: rest =>
                loop rest
                  (if isObjectType patchValue
                   then setEntry updatedObj key
                          (merge (getEntry updatedObj key) patchValue)
                   else setEntry updatedObj key patchValue)
            end) entries (ownEntries originalObj))
  | JArray elems =>
      JObject
        ((fix loop (elems : list Json) (index : nat)
              (updatedObj : list (string * Json)) : list (string * Json) :=
            match elems with
            | [] => updatedObj
            | patchValue :: rest =>
                loop rest (S index)
                  (if isObjectType patchValue
                   then setEntry updatedObj (indexKey index)
                          (merge (getEntry updatedObj (indexKey index)) patchValue)
                   else setEntry updatedObj (indexKey index) patchValue)
            end) elems 0 (ownEntries originalObj))
  | JString s =>
      JObject (fold_left (fun updatedObj kv => setEntry updatedObj (fst kv) (snd kv))
                 (indexedFrom 0 (charsOf s)) (ownEntries originalObj))
  | _ => JObject (ownEntries originalObj)
  end.

(** [deepUpdate(originalObj, patchObj)]: [Object.entries] throws a
    TypeError on [null] and [undefined]. *)
Definition deepUpdate (originalObj patchObj : Json) : Completion Json :=
  match patchObj with
  | JNull | JUndefined => Throw TypeError
  | _ => Normal (merge originalObj patchObj)
  end.

(** One turn of the loop of [deepUpdate]. *)
Definition updateEntry (updatedObj : list (string * Json)) (key : string)
    (patchValue : Json) : list (string * Json) :=
  if isObjectType patchValue
  then setEntry updatedObj key (merge (getEntry updatedObj key) patchValue)
  else setEntry updatedObj key patchValue.

(** The loop of [deepUpdate] over the entries of the patch. *)
Fixpoint mergeEntries (entries updatedObj : list (string * Json))
    : list (string * Json) :=
  match entries with
  | [] => updatedObj
  | (key, patchValue) :: rest =>
      mergeEntries rest (updateEntry updatedObj key patchValue)
  end.

Fixpoint distinctKeys (keys : list string) : bool :=
  match keys with
  | [] => true
  | k :: rest => negb (existsb (String.eqb k) rest) && distinctKeys rest
  end.

(** A patch as an object literal or a parsed document gives it: no object
    in it has a property twice. *)
Fixpoint wellFormed (v : Json) : bool :=
  match v with
  | JObject props =>
      distinctKeys (map fst props)
      && (fix all (props : list (string * Json)) : bool :=
            match props with
            | [] => true
            | (_, x) :: rest => wellFormed x && all rest
            end) props
  | JArray elems =>
      (fix all (elems : list Json) : bool :=
         match elems with
         | [] => true
         | x :: rest => wellFormed x && all rest
         end) elems
  | _ => true
  end.

(** The height of a value, for inductions. *)
Fixpoint height (v : Json) : nat :=
  match v with
  | JObject props =>
      S ((fix most (props : list (string * Json)) : nat :=
            match props with
            | [] => 0
            | (_, x) :: rest => Nat.max (height x) (most rest)
            end) props)
  | JArray elems =>
      S ((fix most (elems : list Json) : nat :=
            match elems with
            | [] => 0
            | x :: rest => Nat.max (height x) (most rest)
            end) elems)
  | _ => 0
  end.

(* ================================================================== *)
(** * Part II.  Properties                                             *)
(* ================================================================== *)

(* ------------------------------------------------------------------ *)
(** ** Keys and key sets                                               *)
(* ------------------------------------------------------------------ *)

Lemma SFeqb_true_iff (a b : spec_float) :
  SFeqb a b = true <-> a <> S754_nan /\ normZero a = normZero b.
Proof.
  unfold SFeqb.
  destruct a as [sa | sa | | sa ma ea], b as [sb | sb | | sb mb eb]; simpl;
    try (split; [discriminate | intros [H1 H2]; try discriminate; congruence]);
    try (destruct sa; simpl; (split; [discriminate | intros [_ H]; discriminate]));
    try (destruct sb; simpl; (split; [discriminate | intros [_ H]; discriminate])).
  - split; [intros _; split; [discriminate | reflexivity] | reflexivity].
  - destruct sa, sb; simpl; (split; intros H); try discriminate;
      try reflexivity; try (split; [discriminate | reflexivity]);
      destruct H as [_ H]; discriminate.
  - change (PosDef.Pos.compare_cont Eq ma mb) with (Pos.compare ma mb).
    destruct sa, sb; simpl;
      try (split; [discriminate | intros [_ H]; discriminate]).
    all: destruct (Z.compare_spec ea eb) as [E | E | E];
      destruct (Pos.compare_spec ma mb) as [M | M | M]; simpl.
    all: split.
    all: first
      [ discriminate
      | reflexivity
      | intros _; subst; split; [discriminate | reflexivity]
      | intros [_ H]; injection H as -> ->; lia ].
Qed.

Lemma is_nan_spec (x : float) : is_nan x = true <-> Prim2SF x = S754_nan.
Proof.
  unfold is_nan. rewrite eqb_spec, negb_true_iff.
  destruct (SFeqb (Prim2SF x) (Prim2SF x)) eqn:E.
  - apply SFeqb_true_iff in E. split; [discriminate | intros H; tauto].
  - split; [intros _ | reflexivity].
    destruct (Prim2SF x) eqn:P; try reflexivity; exfalso;
      assert (SFeqb (Prim2SF x) (Prim2SF x) = true) as C
        by (apply SFeqb_true_iff; rewrite P; split; [discriminate | reflexivity]);
      rewrite P in C; congruence.
Qed.

Lemma sameValueZero_iff (a b : Key) :
  sameValueZero a b = true <-> keyClass a = keyClass b.
Proof.
  destruct a as [s | x], b as [t | y]; simpl.
  - rewrite String.eqb_eq. split; congruence.
  - split; discriminate.
  - split; discriminate.
  - rewrite orb_true_iff, andb_true_iff, !is_nan_spec, eqb_spec, SFeqb_true_iff.
    split.
    + intros [[_ H] | [H1 H2]]; [congruence | rewrite H1, H2; reflexivity].
    + intros H. injection H as H.
      destruct (Prim2SF x) eqn:Px; [left | left | right | left];
        try (split; [discriminate | assumption]).
      split; [reflexivity |].
      destruct (Prim2SF y); simpl in H; congruence.
Qed.

Lemma sameValueZero_not_both_NaN (a b : Key) :
  isNaN a && isNaN b = false -> sameValueZero a b = strictEquals a b.
Proof.
  destruct a as [s | x], b as [t | y]; simpl; try reflexivity.
  intros ->. apply orb_false_r.
Qed.

Lemma Set_has_iff (s : KeySet) (k : Key) :
  Set_has s k = true <-> exists k', In k' s /\ keyClass k = keyClass k'.
Proof.
  unfold Set_has. rewrite existsb_exists.
  split; intros [k' [Hin H]]; exists k'; split; trivial;
    now apply sameValueZero_iff.
Qed.

Lemma Set_has_add (s : KeySet) (k x : Key) :
  Set_has (Set_add s k) x = Set_has s x || sameValueZero x k.
Proof.
  unfold Set_add. destruct (Set_has s k) eqn:Hk.
  - destruct (sameValueZero x k) eqn:Hx; [| now rewrite orb_false_r].
    rewrite orb_true_r. apply Set_has_iff.
    apply Set_has_iff in Hk as [k' [Hin Hc]].
    apply sameValueZero_iff in Hx.
    exists k'. split; [assumption | congruence].
  - unfold Set_has. rewrite existsb_app. simpl. now rewrite orb_false_r.
Qed.

Lemma Set_has_fold (ks : list Key) (s : KeySet) (x : Key) :
  Set_has (fold_left Set_add ks s) x = Set_has s x || existsb (sameValueZero x) ks.
Proof.
  revert s. induction ks as [| k ks IH]; intros s; simpl.
  - now rewrite orb_false_r.
  - rewrite IH, Set_has_add. now rewrite orb_assoc.
Qed.

(** Membership in [new Set(keys)] is membership in [keys] up to
    SameValueZero. *)
Lemma Set_has_from (ks : list Key) (x : Key) :
  Set_has (Set_from ks) x = existsb (sameValueZero x) ks.
Proof. unfold Set_from. now rewrite Set_has_fold. Qed.

(** A key set holds no key twice. *)
Lemma Set_add_NoDup (s : KeySet) (k : Key) :
  NoDup (map keyClass s) -> NoDup (map keyClass (Set_add s k)).
Proof.
  intros Hs. unfold Set_add. destruct (Set_has s k) eqn:Hk; [assumption |].
  rewrite map_app. simpl.
  apply NoDup_app; [assumption | repeat constructor; simpl; tauto |].
  intros c Hc [<- | []].
  apply in_map_iff in Hc as [k' [Hc Hin]].
  assert (Set_has s k = true) as C
    by (apply Set_has_iff; exists k'; split; [assumption | congruence]).
  congruence.
Qed.

Lemma Set_from_NoDup (ks : list Key) : NoDup (map keyClass (Set_from ks)).
Proof.
  unfold Set_from.
  assert (forall s, NoDup (map keyClass s) ->
                    NoDup (map keyClass (fold_left Set_add ks s))) as H.
  { induction ks as [| k ks IH]; intros s Hs; simpl; [assumption |].
    apply IH, Set_add_NoDup, Hs. }
  apply H. constructor.
Qed.

(* ------------------------------------------------------------------ *)
(** ** Selection tri-state                                             *)
(* ------------------------------------------------------------------ *)

Section TriStateFacts.

Context {T R : Type}.
Variable selectedItems : list T.
Variable compareFn : T -> T -> bool.
Variable stateMapper : TriState -> R.

Lemma isSelectedBy_Matches (item : T) :
  isSelectedBy compareFn selectedItems item = true
  <-> Matches compareFn selectedItems item.
Proof. unfold isSelectedBy, Matches. apply existsb_exists. Qed.

Lemma isSelectedBy_not_Matches (item : T) :
  isSelectedBy compareFn selectedItems item = false
  <-> ~ Matches compareFn selectedItems item.
Proof.
  rewrite <- isSelectedBy_Matches.
  destruct (isSelectedBy compareFn selectedItems item); split; congruence.
Qed.

(** The loop computes the two flags "some item is selected" and "some item
    is not"; leaving it early when both are set does not change the
    result. *)
Lemma byCompareLoop_flags (items : list T) (hasSelected hasUnselected : bool) :
  hasSelected && hasUnselected = false ->
  byCompareLoop selectedItems compareFn stateMapper items
    hasSelected hasUnselected
  = stateOfFlags stateMapper
      (hasSelected || existsb (isSelectedBy compareFn selectedItems) items)
      (hasUnselected
       || existsb (fun x => negb (isSelectedBy compareFn selectedItems x)) items).
Proof.
  revert hasSelected hasUnselected.
  induction items as [| item rest IH]; intros hs hu Hinv; simpl.
  - rewrite !orb_false_r. unfold stateOfFlags. now rewrite Hinv.
  - fold (isSelectedBy compareFn selectedItems item).
    destruct (isSelectedBy compareFn selectedItems item) eqn:Hsel; simpl.
    + destruct hu; simpl.
      * unfold stateOfFlags. now rewrite !orb_true_r.
      * rewrite IH by reflexivity. now rewrite orb_true_r.
    + destruct hs; simpl.
      * unfold stateOfFlags. now rewrite !orb_true_r.
      * rewrite IH by reflexivity. now rewrite orb_true_r.
Qed.

Lemma computeSelectionTriStateByCompare_flags (allItems : list T) :
  computeSelectionTriStateByCompare allItems selectedItems compareFn stateMapper
  = stateOfFlags stateMapper
      (existsb (isSelectedBy compareFn selectedItems) allItems)
      (existsb (fun x => negb (isSelectedBy compareFn selectedItems x)) allItems).
Proof.
  unfold computeSelectionTriStateByCompare.
  now rewrite byCompareLoop_flags.
Qed.

Lemma some_selected_iff (allItems : list T) :
  existsb (isSelectedBy compareFn selectedItems) allItems = true
  <-> exists x, In x allItems /\ Matches compareFn selectedItems x.
Proof.
  rewrite existsb_exists.
  split; intros [x [Hin H]]; exists x; split; trivial;
    now apply isSelectedBy_Matches.
Qed.

Lemma some_unselected_iff (allItems : list T) :
  existsb (fun x => negb (isSelectedBy compareFn selectedItems x)) allItems = true
  <-> exists x, In x allItems /\ ~ Matches compareFn selectedItems x.
Proof.
  rewrite existsb_exists.
  split; intros [x [Hin H]]; exists x; split; trivial.
  - apply isSelectedBy_not_Matches. now apply negb_true_iff.
  - apply negb_true_iff. now apply isSelectedBy_not_Matches.
Qed.

Lemma none_selected_iff (allItems : list T) :
  existsb (isSelectedBy compareFn selectedItems) allItems = false
  <-> forall x, In x allItems -> ~ Matches compareFn selectedItems x.
Proof.
  split.
  - intros H x Hin Hm.
    assert (existsb (isSelectedBy compareFn selectedItems) allItems = true)
      by (apply some_selected_iff; eauto).
    congruence.
  - intros H.
    destruct (existsb (isSelectedBy compareFn selectedItems) allItems) eqn:E;
      [| reflexivity].
    apply some_selected_iff in E as [x [Hin Hm]]. now apply H in Hm.
Qed.

Lemma none_unselected_iff (allItems : list T) :
  existsb (fun x => negb (isSelectedBy compareFn selectedItems x)) allItems = false
  <-> forall x, In x allItems -> Matches compareFn selectedItems x.
Proof.
  split.
  - intros H x Hin. apply isSelectedBy_Matches.
    destruct (isSelectedBy compareFn selectedItems x) eqn:E; [reflexivity |].
    assert (existsb (fun x => negb (isSelectedBy compareFn selectedItems x))
              allItems = true)
      by (apply existsb_exists; exists x; now rewrite E).
    congruence.
  - intros H.
    destruct (existsb _ allItems) eqn:E; [| reflexivity].
    apply some_unselected_iff in E as [x [Hin Hm]]. now apply H in Hin.
Qed.

Lemma existsb_Permutation (p : T -> bool) (l l' : list T) :
  Permutation l l' -> existsb p l = existsb p l'.
Proof.
  induction 1; simpl.
  - reflexivity.
  - now rewrite IHPermutation.
  - now rewrite !orb_assoc, (orb_comm (p y)).
  - congruence.
Qed.

End TriStateFacts.

Lemma byCompare_indeterminate {T R : Type} (allItems selectedItems : list T)
    (compareFn : T -> T -> bool) (stateMapper : TriState -> R) :
  (exists x, In x allItems /\ Matches compareFn selectedItems x) ->
  (exists y, In y allItems /\ ~ Matches compareFn selectedItems y) ->
  computeSelectionTriStateByCompare allItems selectedItems compareFn stateMapper
  = stateMapper indeterminate.
Proof.
  intros Hs Hu. rewrite computeSelectionTriStateByCompare_flags.
  apply some_selected_iff in Hs. apply some_unselected_iff in Hu.
  unfold stateOfFlags. now rewrite Hs, Hu.
Qed.

Lemma byCompare_all {T R : Type} (allItems selectedItems : list T)
    (compareFn : T -> T -> bool) (stateMapper : TriState -> R) :
  allItems <> [] ->
  (forall x, In x allItems -> Matches compareFn selectedItems x) ->
  computeSelectionTriStateByCompare allItems selectedItems compareFn stateMapper
  = stateMapper all.
Proof.
  intros Hne Hall. rewrite computeSelectionTriStateByCompare_flags.
  unfold stateOfFlags.
  assert (existsb (isSelectedBy compareFn selectedItems) allItems = true) as ->.
  { destruct allItems as [| x rest]; [congruence |].
    apply some_selected_iff. exists x. split; [now left |].
    apply Hall. now left. }
  apply none_unselected_iff in Hall. now rewrite Hall.
Qed.

Lemma byCompare_none {T R : Type} (allItems selectedItems : list T)
    (compareFn : T -> T -> bool) (stateMapper : TriState -> R) :
  (forall x, In x allItems -> ~ Matches compareFn selectedItems x) ->
  computeSelectionTriStateByCompare allItems selectedItems compareFn stateMapper
  = stateMapper none.
Proof.
  intros Hnone. rewrite computeSelectionTriStateByCompare_flags.
  apply none_selected_iff in Hnone. unfold stateOfFlags. now rewrite Hnone.
Qed.

(** C1.  [computeSelectionTriStateByCompare] returns
    [stateMapper('indeterminate')] when some item of [allItems] matches an
    element of [selectedItems] under [compareFn] and some item matches
    none; [stateMapper('all')] when [allItems] is not empty and every item
    matches; and [stateMapper('none')] when no item matches, the empty
    [allItems] included. *)
Theorem computeSelectionTriStateByCompare_cases {T R : Type}
    (allItems selectedItems : list T) (compareFn : T -> T -> bool)
    (stateMapper : TriState -> R) :
  ((exists x, In x allItems /\ Matches compareFn selectedItems x)
   /\ (exists y, In y allItems /\ ~ Matches compareFn selectedItems y)
   -> computeSelectionTriStateByCompare allItems selectedItems compareFn
        stateMapper = stateMapper indeterminate)
  /\ (allItems <> []
      /\ (forall x, In x allItems -> Matches compareFn selectedItems x)
      -> computeSelectionTriStateByCompare allItems selectedItems compareFn
           stateMapper = stateMapper all)
  /\ ((forall x, In x allItems -> ~ Matches compareFn selectedItems x)
      -> computeSelectionTriStateByCompare allItems selectedItems compareFn
           stateMapper = stateMapper none)
  /\ computeSelectionTriStateByCompare [] selectedItems compareFn stateMapper
     = stateMapper none.
Proof.
  repeat split.
  - intros [Hs Hu]. now apply byCompare_indeterminate.
  - intros [Hne Hall]. now apply byCompare_all.
  - apply byCompare_none.
Qed.

Example computeSelectionTriStateByCompare_some :
  computeSelectionTriStateByCompare [1; 2; 3] [2] Nat.eqb defaultStateMapper
  = indeterminate.
Proof. reflexivity. Qed.

Example computeSelectionTriStateByCompare_every :
  computeSelectionTriStateByCompare [1; 2; 3] [3; 1; 2] Nat.eqb
    defaultStateMapper = all.
Proof. reflexivity. Qed.

Example computeSelectionTriStateByCompare_empty_universe :
  computeSelectionTriStateByCompare [] [3; 1; 2] Nat.eqb defaultStateMapper
  = none.
Proof. reflexivity. Qed.

Example computeSelectionTriStateByCompare_empty_selection :
  computeSelectionTriStateByCompare [1; 2; 3] [] Nat.eqb defaultStateMapper
  = none.
Proof. reflexivity. Qed.

(** The result depends on [allItems] only through the two flags, which do
    not depend on the order. *)
Lemma computeSelectionTriStateByCompare_Permutation {T R : Type}
    (allItems permuted selectedItems : list T) (compareFn : T -> T -> bool)
    (stateMapper : TriState -> R) :
  Permutation allItems permuted ->
  computeSelectionTriStateByCompare permuted selectedItems compareFn stateMapper
  = computeSelectionTriStateByCompare allItems selectedItems compareFn
      stateMapper.
Proof.
  intros HP. rewrite !computeSelectionTriStateByCompare_flags.
  now rewrite !(existsb_Permutation _ _ _ HP).
Qed.

(** C8.  When some item of [allItems] matches [selectedItems] and some
    item does not, [computeSelectionTriStateByCompare] returns
    'indeterminate' (through the state mapper), and so it does on every
    permutation of [allItems]. *)
Theorem computeSelectionTriStateByCompare_indeterminate_any_order
    {T R : Type} (allItems selectedItems : list T)
    (compareFn : T -> T -> bool) (stateMapper : TriState -> R) :
  (exists x, In x allItems /\ Matches compareFn selectedItems x) ->
  (exists y, In y allItems /\ ~ Matches compareFn selectedItems y) ->
  computeSelectionTriStateByCompare allItems selectedItems compareFn stateMapper
  = stateMapper indeterminate
  /\ forall permuted, Permutation allItems permuted ->
       computeSelectionTriStateByCompare permuted selectedItems compareFn
         stateMapper
       = computeSelectionTriStateByCompare allItems selectedItems compareFn
           stateMapper.
Proof.
  intros Hs Hu. split.
  - now apply byCompare_indeterminate.
  - intros permuted HP.
    now apply computeSelectionTriStateByCompare_Permutation.
Qed.

Lemma Matches_2_in_2 : Matches Nat.eqb [2] 2.
Proof. exists 2. split; [now left | reflexivity]. Qed.

Lemma not_Matches_1_in_2 : ~ Matches Nat.eqb [2] 1.
Proof. intros [s [[<- | []] H]]. discriminate. Qed.

Lemma computeSelectionTriStateByCompare_indeterminate_any_order_witness :
  computeSelectionTriStateByCompare [1; 2; 3] [2] Nat.eqb defaultStateMapper
  = indeterminate
  /\ computeSelectionTriStateByCompare [3; 2; 1] [2] Nat.eqb defaultStateMapper
     = computeSelectionTriStateByCompare [1; 2; 3] [2] Nat.eqb
         defaultStateMapper.
Proof.
  destruct (computeSelectionTriStateByCompare_indeterminate_any_order
              [1; 2; 3] [2] Nat.eqb defaultStateMapper) as [H1 H2].
  - exists 2. split; [simpl; tauto | exact Matches_2_in_2].
  - exists 1. split; [simpl; tauto | exact not_Matches_1_in_2].
  - split; [exact H1 |].
    apply H2. change [3; 2; 1] with (rev [1; 2; 3]). apply Permutation_rev.
Defined.

(* ------------------------------------------------------------------ *)
(** ** The key form against the comparator form                        *)
(* ------------------------------------------------------------------ *)

Lemma strictEquals_sameValueZero (a b : Key) :
  strictEquals a b = true -> sameValueZero a b = true.
Proof.
  destruct a, b; simpl; trivial. intros ->. reflexivity.
Qed.

Lemma existsb_ext_In {A : Type} (f g : A -> bool) (l : list A) :
  (forall a, In a l -> f a = g a) -> existsb f l = existsb g l.
Proof.
  induction l as [| a l IH]; intros H; simpl; [reflexivity |].
  rewrite (H a) by now left.
  rewrite IH; [reflexivity |]. intros b Hb. apply H. now right.
Qed.

Lemma existsb_over_map {A B : Type} (f : A -> B) (p : B -> bool) (l : list A) :
  existsb p (map f l) = existsb (fun a => p (f a)) l.
Proof. induction l as [| a l IH]; simpl; [reflexivity | now rewrite IH]. Qed.

Lemma byCompareLoop_ext {T R : Type} (selectedItems : list T)
    (f g : T -> T -> bool) (stateMapper : TriState -> R) (items : list T)
    (hasSelected hasUnselected : bool) :
  (forall x s, In x items -> In s selectedItems -> f x s = g x s) ->
  byCompareLoop selectedItems f stateMapper items hasSelected hasUnselected
  = byCompareLoop selectedItems g stateMapper items hasSelected hasUnselected.
Proof.
  revert hasSelected hasUnselected.
  induction items as [| item rest IH]; intros hs hu Hfg; simpl; [reflexivity |].
  assert (existsb (fun selected => f item selected) selectedItems
          = existsb (fun selected => g item selected) selectedItems) as ->.
  { apply existsb_ext_In. intros s Hs. apply Hfg; [now left | assumption]. }
  rewrite IH; [reflexivity |].
  intros x s Hx Hs. apply Hfg; [now right | assumption].
Qed.

(** The loop over the key set is the loop of the comparator form run with
    the comparator that compares keys as the set does. *)
Lemma byKeyLoop_byCompareLoop {T R : Type} (selectedItems : list T)
    (k : T -> Key) (stateMapper : TriState -> R) (items : list T)
    (hasSelected hasUnselected : bool) :
  byKeyLoop (Set_from (map k selectedItems)) k stateMapper items
    hasSelected hasUnselected
  = byCompareLoop selectedItems (compareBySameValueZero k) stateMapper items
      hasSelected hasUnselected.
Proof.
  revert hasSelected hasUnselected.
  induction items as [| item rest IH]; intros hs hu; simpl; [reflexivity |].
  rewrite Set_has_from, existsb_over_map. unfold compareBySameValueZero at 1 2.
  now rewrite IH.
Qed.

Lemma computeSelectionTriStateByKey_sameValueZero {T R FieldName : Type}
    (readField : T -> FieldName -> Key) (allItems selectedItems : list T)
    (keyOrExtractor : KeyOrExtractor T FieldName)
    (stateMapper : TriState -> R) :
  computeSelectionTriStateByKey readField allItems selectedItems
    keyOrExtractor stateMapper
  = computeSelectionTriStateByCompare allItems selectedItems
      (compareBySameValueZero (extractorOf readField keyOrExtractor))
      stateMapper.
Proof.
  unfold computeSelectionTriStateByKey, computeSelectionTriStateByCompare.
  apply byKeyLoop_byCompareLoop.
Qed.

(** C3, as the code has it.  [computeSelectionTriStateByKey] equals
    [computeSelectionTriStateByCompare] run with the comparator that
    compares the keys by SameValueZero, the equality of the key set; it
    equals the run with [(a, b) => k(a) === k(b)] whenever no item of
    [allItems] and item of [selectedItems] both have the key [NaN]. *)
Theorem computeSelectionTriStateByKey_agrees {T R FieldName : Type}
    (readField : T -> FieldName -> Key) (allItems selectedItems : list T)
    (keyOrExtractor : KeyOrExtractor T FieldName)
    (stateMapper : TriState -> R) :
  let k := extractorOf readField keyOrExtractor in
  computeSelectionTriStateByKey readField allItems selectedItems
    keyOrExtractor stateMapper
  = computeSelectionTriStateByCompare allItems selectedItems
      (compareBySameValueZero k) stateMapper
  /\ ((forall x s, In x allItems -> In s selectedItems ->
         isNaN (k x) && isNaN (k s) = false) ->
      computeSelectionTriStateByKey readField allItems selectedItems
        keyOrExtractor stateMapper
      = computeSelectionTriStateByCompare allItems selectedItems
          (compareByKey k) stateMapper).
Proof.
  intros k. split.
  - apply computeSelectionTriStateByKey_sameValueZero.
  - intros Hnan. rewrite computeSelectionTriStateByKey_sameValueZero.
    unfold computeSelectionTriStateByCompare. apply byCompareLoop_ext.
    intros x s Hx Hs. unfold compareBySameValueZero, compareByKey.
    fold k. apply sameValueZero_not_both_NaN. now apply Hnan.
Qed.

(** C3, as stated, fails on the key [NaN]: the key set finds [NaN] among
    the selected keys, [===] does not. *)
Lemma computeSelectionTriStateByKey_NaN_disagrees :
  computeSelectionTriStateByKey noField [nan] [nan] scoreOf defaultStateMapper
  = all
  /\ computeSelectionTriStateByCompare [nan] [nan]
       (compareByKey (extractorOf noField scoreOf)) defaultStateMapper
     = none.
Proof. split; vm_compute; reflexivity. Qed.

(** The example of the specification: keys 1, 2, 3 with 2 selected. *)
Example computeSelectionTriStateByKey_example :
  computeSelectionTriStateByKey noField [1; 2; 3]%float [2]%float scoreOf
    defaultStateMapper = indeterminate
  /\ computeSelectionTriStateByCompare [1; 2; 3]%float [2]%float
       (compareByKey (extractorOf noField scoreOf)) defaultStateMapper
     = indeterminate.
Proof. split; vm_compute; reflexivity. Qed.

(** C6, as the code has it.  When [allItems] is not empty and every item
    of it matches some item of [selectedItems], the comparator form returns
    'all', and so does the key form, where an item matches when its key is
    the key of a selected item. *)
Theorem computeSelectionTriState_all {T R FieldName : Type}
    (readField : T -> FieldName -> Key) (allItems selectedItems : list T)
    (compareFn : T -> T -> bool) (keyOrExtractor : KeyOrExtractor T FieldName)
    (stateMapper : TriState -> R) :
  allItems <> [] ->
  ((forall x, In x allItems -> Matches compareFn selectedItems x) ->
   computeSelectionTriStateByCompare allItems selectedItems compareFn
     stateMapper = stateMapper all)
  /\ ((forall x, In x allItems ->
         Matches (compareBySameValueZero (extractorOf readField keyOrExtractor))
           selectedItems x) ->
      computeSelectionTriStateByKey readField allItems selectedItems
        keyOrExtractor stateMapper = stateMapper all).
Proof.
  intros Hne. split; intros Hall.
  - now apply byCompare_all.
  - rewrite computeSelectionTriStateByKey_sameValueZero.
    now apply byCompare_all.
Qed.

Lemma computeSelectionTriState_all_witness :
  computeSelectionTriStateByCompare [2; 1]%float [1; 2; 3]%float PrimFloat.eqb
    defaultStateMapper = all
  /\ computeSelectionTriStateByKey noField [2; 1]%float [1; 2; 3]%float
       scoreOf defaultStateMapper = all.
Proof.
  destruct (computeSelectionTriState_all noField [2; 1]%float [1; 2; 3]%float
              PrimFloat.eqb scoreOf defaultStateMapper) as [H1 H2].
  - discriminate.
  - split; [apply H1 | apply H2]; intros x [<- | [<- | []]].
    + exists 2%float. split; [simpl; tauto | reflexivity].
    + exists 1%float. split; [simpl; tauto | reflexivity].
    + exists 2%float. split; [simpl; tauto | reflexivity].
    + exists 1%float. split; [simpl; tauto | reflexivity].
Defined.

(** C6, as stated, fails on the empty [allItems]: every item of it matches,
    there being none, and both forms return 'none'. *)
Lemma computeSelectionTriState_all_fails_on_empty :
  (forall x, In x [] -> Matches PrimFloat.eqb [1; 2]%float x)
  /\ computeSelectionTriStateByCompare [] [1; 2]%float PrimFloat.eqb
       defaultStateMapper = none
  /\ computeSelectionTriStateByKey noField [] [1; 2]%float scoreOf
       defaultStateMapper = none
  /\ none <> all.
Proof.
  split; [intros x [] |].
  split; [reflexivity |]. split; [vm_compute; reflexivity | discriminate].
Qed.

(* ------------------------------------------------------------------ *)
(** ** The safe placeholder of [createMock]                            *)
(* ------------------------------------------------------------------ *)

Lemma createMock_value (displayToken : string) (next : nat) :
  createMock displayToken next = (VMock next displayToken, S next).
Proof. reflexivity. Qed.

Lemma js_access_mock (id : nat) (displayToken : string) (a : Access) :
  plainAccess a = true ->
  js_access (VMock id displayToken) a = Normal (VMock id displayToken).
Proof.
  destruct a as [[name | []] | args]; simpl; try reflexivity; discriminate.
Qed.

Lemma js_chain_mock (id : nat) (displayToken : string) (chain : list Access) :
  forallb plainAccess chain = true ->
  js_chain (VMock id displayToken) chain = Normal (VMock id displayToken).
Proof.
  induction chain as [| a rest IH]; simpl; [reflexivity |].
  intros H. apply andb_true_iff in H as [Ha Hrest].
  rewrite js_access_mock by assumption. now apply IH.
Qed.

(** C2, as the code has it.  On the value made by [createMock(mockLabel)]
    every property or index read other than that of [Symbol.toPrimitive]
    returns the same value, a call returns the same value, its own keys are
    the empty list and its string conversion is [mockLabel]; so every chain
    of such reads and calls ends, without an error, on the same value. *)
Theorem createMock_absorbing (mockLabel : string) (next : nat) :
  let mock := fst (createMock mockLabel next) in
  (forall prop, prop <> PSym SymToPrimitive -> js_get mock prop = Normal mock)
  /\ js_get mock (PSym SymToPrimitive) = Normal (VToPrimitiveFn mockLabel)
  /\ (forall args, js_call mock args = Normal mock)
  /\ js_ownKeys mock = Normal []
  /\ js_toPrimitive mock = Normal (VString mockLabel)
  /\ js_toString mock = Normal mockLabel
  /\ (forall chain, forallb plainAccess chain = true ->
        js_chain mock chain = Normal mock).
Proof.
  simpl. repeat split.
  - intros [name | []] H; simpl; try reflexivity. congruence.
  - intros chain H. now apply js_chain_mock.
Qed.

(** The chain [item.profile.name.get()] of the pipe's documentation. *)
Example createMock_chain_example :
  js_chain (VMock 0 "mock")
    [Get (PStr "name"); Get (PStr "get"); Call []; Get (PStr "0")]
  = Normal (VMock 0 "mock").
Proof. reflexivity. Qed.

(** The example of the specification: the [profile] field of a record made
    for [['profile']], read at depth, called, and converted to a string. *)
Example createMock_profile_example :
  exists records next,
    transform 0 [] (FieldArray ["profile"%string]) 5 "mock" 0
    = Some (Fresh records, next)
    /\ List.length records = 5%nat
    /\ forall record, In record records ->
         exists profile,
           js_get record (PStr "profile") = Normal profile
           /\ js_chain profile
                [Get (PStr "a"); Get (PStr "b"); Get (PStr "c"); Call []]
              = Normal profile
           /\ js_toString profile = Normal "mock"%string.
Proof.
  eexists. eexists. split; [reflexivity |]. split; [reflexivity |].
  intros record H. simpl in H.
  repeat (destruct H as [<- | H]; [eexists; repeat split |]).
  destruct H.
Qed.

(** C2, as stated, fails on the key [Symbol.toPrimitive]: the read returns
    the closure [() => displayToken] and not the placeholder, and a chain
    that goes on from there raises a TypeError. *)
Lemma createMock_toPrimitive_not_absorbed :
  js_get (fst (createMock "mock" 0)) (PSym SymToPrimitive)
  = Normal (VToPrimitiveFn "mock")
  /\ Normal (VToPrimitiveFn "mock") <> Normal (fst (createMock "mock" 0))
  /\ js_chain (fst (createMock "mock" 0))
       [Get (PSym SymToPrimitive); Get (PStr "a"); Get (PStr "b")]
     = Throw TypeError.
Proof. repeat split. discriminate. Qed.

(* ------------------------------------------------------------------ *)
(** ** [MockMorePipe.transform]: the duplication branch                *)
(* ------------------------------------------------------------------ *)

Lemma ceilDiv_bounds (targetSize n : Z) :
  (0 < n)%Z ->
  ((ceilDiv targetSize n - 1) * n < targetSize <= ceilDiv targetSize n * n)%Z.
Proof.
  intros Hn. unfold ceilDiv.
  pose proof (Z.div_mod (targetSize + n - 1) n ltac:(lia)) as Hdiv.
  pose proof (Z.mod_pos_bound (targetSize + n - 1) n Hn) as Hmod.
  nia.
Qed.

(** [ceilDiv targetSize n * n] is the least multiple of [n] that is at
    least [targetSize]. *)
Lemma ceilDiv_least (targetSize n j : Z) :
  (0 < n)%Z -> (targetSize <= j * n)%Z ->
  (ceilDiv targetSize n * n <= j * n)%Z.
Proof.
  intros Hn Hj. pose proof (ceilDiv_bounds targetSize n Hn) as [Hlow _].
  set (k := ceilDiv targetSize n) in *.
  assert (k - 1 < j)%Z as Hlt.
  { apply (Z.mul_lt_mono_pos_r n); lia. }
  apply Z.mul_le_mono_nonneg_r; lia.
Qed.

Lemma copies_length (k : nat) (value : list Value) :
  List.length (copies k value) = (k * List.length value)%nat.
Proof.
  unfold copies. induction k as [| k IH]; simpl; [reflexivity |].
  now rewrite length_app, IH.
Qed.

Lemma copies_snoc (k : nat) (value : list Value) :
  copies k value ++ value = copies (S k) value.
Proof.
  unfold copies. induction k as [| k IH]; simpl.
  - now rewrite app_nil_r.
  - rewrite <- app_assoc, IH. reflexivity.
Qed.

Lemma copies_one (value : list Value) : copies 1 value = value.
Proof. unfold copies. simpl. apply app_nil_r. Qed.

(** One iteration appends one copy, so the accumulator grows by
    [value.length]. *)
Lemma growLoop_step (fuel : nat) (value result : list Value) (targetSize : Z) :
  (Z.of_nat (List.length result) < targetSize)%Z ->
  growLoop (S fuel) value targetSize result
  = growLoop fuel value targetSize (result ++ value)
  /\ List.length (result ++ value)
     = (List.length result + List.length value)%nat.
Proof.
  intros H. simpl. apply Z.ltb_lt in H. rewrite H.
  split; [reflexivity | apply length_app].
Qed.

Lemma growLoop_done (fuel : nat) (value result : list Value) (targetSize : Z) :
  (targetSize <= Z.of_nat (List.length result))%Z ->
  growLoop fuel value targetSize result = Some result.
Proof.
  intros H. apply Z.ltb_ge in H. destruct fuel; simpl; now rewrite H.
Qed.

(** From [j] copies the loop reaches [k] copies, [k] being the first
    number of copies whose length is at least [targetSize], when it may run
    [k - j] iterations. *)
Lemma growLoop_copies (value : list Value) (targetSize : Z) (k : nat) :
  (targetSize <= Z.of_nat (k * List.length value))%Z ->
  (forall j, (j < k)%nat ->
     (Z.of_nat (j * List.length value) < targetSize)%Z) ->
  forall fuel j, (j <= k)%nat -> (k - j <= fuel)%nat ->
    growLoop fuel value targetSize (copies j value) = Some (copies k value).
Proof.
  intros Hk Hbelow fuel.
  induction fuel as [| fuel IH]; intros j Hj Hfuel.
  - assert (j = k) as -> by lia.
    apply growLoop_done. now rewrite copies_length.
  - destruct (Nat.eq_dec j k) as [-> | Hne].
    + apply growLoop_done. now rewrite copies_length.
    + destruct (growLoop_step fuel value (copies j value) targetSize) as [-> _].
      * rewrite copies_length. apply Hbelow. lia.
      * rewrite copies_snoc. apply IH; lia.
Qed.

(** What the loop returns, whatever the bound: the accumulator followed by
    whole copies of [value], of a length that is at least [targetSize]. *)
Lemma growLoop_Some (fuel : nat) (value result result' : list Value)
    (targetSize : Z) :
  growLoop fuel value targetSize result = Some result' ->
  (targetSize <= Z.of_nat (List.length result'))%Z
  /\ exists j, result' = result ++ copies j value.
Proof.
  revert result. induction fuel as [| fuel IH]; intros result; simpl;
    destruct (Z.ltb_spec (Z.of_nat (List.length result)) targetSize) as [Hlt | Hge];
    try discriminate.
  - intros [= <-]. split; [assumption |]. exists 0%nat. now rewrite app_nil_r.
  - intros H. apply IH in H as [Hlen [j ->]]. split; [assumption |].
    exists (S j). now rewrite <- app_assoc.
  - intros [= <-]. split; [assumption |]. exists 0%nat. now rewrite app_nil_r.
Qed.

(** Without the test for the empty input the loop would not end: nothing
    is appended, and no bound is enough. *)
Remark growLoop_empty_value_never_ends (fuel : nat) (targetSize : Z) :
  (0 < targetSize)%Z -> growLoop fuel [] targetSize [] = None.
Proof.
  intros H. induction fuel as [| fuel IH]; simpl;
    destruct (Z.ltb_spec 0 targetSize); try lia; [reflexivity | exact IH].
Qed.

(** The duplication branch returns the first number of copies that
    reaches [targetSize]. *)
Lemma transform_grows (fuel : nat) (value : list Value)
    (fieldsOrField : FieldsOrField) (targetSize : Z) (mockLabel : string)
    (next : nat) :
  value <> [] ->
  (Z.of_nat (List.length value) < targetSize)%Z ->
  (Z.to_nat targetSize <= fuel)%nat ->
  transform fuel value fieldsOrField targetSize mockLabel next
  = Some (Fresh (copies (Z.to_nat (ceilDiv targetSize
                                     (Z.of_nat (List.length value)))) value),
          next).
Proof.
  intros Hne Hlt Hfuel.
  set (n := Z.of_nat (List.length value)) in *.
  set (k := ceilDiv targetSize n).
  assert (0 < n)%Z as Hn.
  { destruct value; [congruence | unfold n; simpl List.length; lia]. }
  pose proof (ceilDiv_bounds targetSize n Hn) as [Hlow Hhigh].
  fold k in Hlow, Hhigh.
  assert (1 <= k)%Z as Hk by nia.
  unfold transform. fold n.
  destruct (Z.eqb_spec n 0) as [E | _]; [lia |].
  apply Z.ltb_lt in Hlt as Hlt'. rewrite Hlt'.
  rewrite <- (copies_one value) at 2.
  rewrite (growLoop_copies value targetSize (Z.to_nat k)); trivial.
  - rewrite Nat2Z.inj_mul. fold n. lia.
  - intros j Hj. rewrite Nat2Z.inj_mul. fold n. nia.
  - lia.
  - nia.
Qed.

(** C4.  For a non-empty [value] shorter than [targetSize], [transform]
    returns [ceil(targetSize / value.length)] whole copies of [value] in
    order; the length of the result is that number times [value.length],
    the least multiple of [value.length] that is at least [targetSize]. *)
Theorem transform_duplicates (fuel : nat) (value : list Value)
    (fieldsOrField : FieldsOrField) (targetSize : Z) (mockLabel : string)
    (next : nat) :
  value <> [] ->
  (Z.of_nat (List.length value) < targetSize)%Z ->
  (Z.to_nat targetSize <= fuel)%nat ->
  let n := Z.of_nat (List.length value) in
  let k := ceilDiv targetSize n in
  transform fuel value fieldsOrField targetSize mockLabel next
  = Some (Fresh (copies (Z.to_nat k) value), next)
  /\ Z.of_nat (List.length (copies (Z.to_nat k) value)) = (k * n)%Z
  /\ (targetSize <= k * n)%Z
  /\ (forall j, (targetSize <= j * n)%Z -> (k * n <= j * n)%Z).
Proof.
  intros Hne Hlt Hfuel n k.
  assert (0 < n)%Z as Hn.
  { destruct value; [congruence | unfold n; simpl List.length; lia]. }
  pose proof (ceilDiv_bounds targetSize n Hn) as [Hlow Hhigh].
  fold k in Hlow, Hhigh.
  assert (1 <= k)%Z as Hk by nia.
  repeat split.
  - now apply transform_grows.
  - rewrite copies_length, Nat2Z.inj_mul. fold n. lia.
  - exact Hhigh.
  - intros j Hj. now apply ceilDiv_least.
Qed.

(** The example of the specification: [[1, 2, 3]] with target size 10
    becomes four copies, twelve elements. *)
Lemma transform_duplicates_witness :
  transform 10 [VNumber 1; VNumber 2; VNumber 3] FieldsOmitted 10 "mock" 0
  = Some (Fresh [VNumber 1; VNumber 2; VNumber 3;
                 VNumber 1; VNumber 2; VNumber 3;
                 VNumber 1; VNumber 2; VNumber 3;
                 VNumber 1; VNumber 2; VNumber 3], 0)
  /\ Z.of_nat (List.length (copies 4 [VNumber 1; VNumber 2; VNumber 3])) = 12%Z.
Proof.
  destruct (transform_duplicates 10 [VNumber 1; VNumber 2; VNumber 3]
              FieldsOmitted 10 "mock" 0) as [H1 [H2 _]].
  - discriminate.
  - simpl. lia.
  - simpl. lia.
  - split; [exact H1 | exact H2].
Defined.

(* ------------------------------------------------------------------ *)
(** ** [MockMorePipe.transform]: the empty input                       *)
(* ------------------------------------------------------------------ *)

#[local] Arguments String.eqb : simpl never.

Lemma lookupProperty_set_same (props : list (string * Value)) (name : string)
    (v : Value) :
  lookupProperty (setProperty props name v) name = Some v.
Proof.
  induction props as [| [k x] rest IH]; simpl.
  - now rewrite String.eqb_refl.
  - destruct (String.eqb k name) eqn:E; simpl; rewrite E; [reflexivity | exact IH].
Qed.

Lemma lookupProperty_set_other (props : list (string * Value))
    (name other : string) (v : Value) :
  other <> name ->
  lookupProperty (setProperty props name v) other = lookupProperty props other.
Proof.
  intros Hne. induction props as [| [k x] rest IH]; simpl.
  - destruct (String.eqb_spec name other); [congruence | reflexivity].
  - destruct (String.eqb_spec k name) as [-> | Hk]; simpl.
    + destruct (String.eqb_spec name other); [congruence | reflexivity].
    + destruct (String.eqb_spec k other); [reflexivity | exact IH].
Qed.

(** After the loop over [fields] every field holds a placeholder of label
    [mockLabel], and the other properties are as before. *)
Lemma assignMocks_spec (fields : list string) (mockLabel : string) :
  forall (base : list (string * Value)) (next : nat),
    let props := fst (assignMocks fields mockLabel base next) in
    (forall f, In f fields ->
       exists id, lookupProperty props f = Some (VMock id mockLabel))
    /\ (forall name, ~ In name fields ->
          lookupProperty props name = lookupProperty base name).
Proof.
  induction fields as [| f rest IH]; intros base next; simpl.
  - split; [intros f [] | reflexivity].
  - unfold bind. simpl.
    destruct (IH (setProperty base f (VMock next mockLabel)) (S next))
      as [Hin Hout].
    split.
    + intros g [<- | Hg].
      * destruct (in_dec string_dec f rest) as [Hf | Hf]; [now apply Hin |].
        exists next. rewrite Hout by assumption.
        apply lookupProperty_set_same.
      * now apply Hin.
    + intros name Hname. rewrite Hout by tauto.
      apply lookupProperty_set_other. intros ->. tauto.
Qed.

(** The record of index [i]. *)
Lemma mockRecord_spec (fields : list string) (mockLabel : string) (i next : nat) :
  exists props,
    fst (mockRecord fields mockLabel i next) = VObject props
    /\ (~ In "id"%string fields ->
        lookupProperty props "id" = Some (VNumber (Z.of_nat i)))
    /\ (forall f, In f fields ->
          exists id, lookupProperty props f = Some (VMock id mockLabel))
    /\ (forall name, lookupProperty props name <> None ->
          name = "id"%string \/ In name fields)
    /\ (fields = [] -> props = [("id"%string, VNumber (Z.of_nat i))]).
Proof.
  unfold mockRecord, bind.
  destruct fields as [| f rest].
  - simpl. eexists. split; [reflexivity |]. repeat split.
    + intros f [].
    + intros name. simpl.
      destruct (String.eqb_spec "id" name); [intros _; now left | congruence].
  - set (fields := f :: rest).
    replace (0 <? List.length fields)%nat with true by reflexivity.
    pose proof (assignMocks_spec fields mockLabel
                  [("id"%string, VNumber (Z.of_nat i))] next) as [Hin Hout].
    destruct (assignMocks fields mockLabel
                [("id"%string, VNumber (Z.of_nat i))] next) as [props next'].
    simpl in Hin, Hout. simpl fst.
    exists props. split; [reflexivity |]. repeat split.
    + intros Hid. now rewrite Hout.
    + exact Hin.
    + intros name Hname.
      destruct (in_dec string_dec name fields) as [H | H]; [now right |].
      rewrite Hout in Hname by assumption. simpl in Hname.
      destruct (String.eqb_spec "id" name); [now left | congruence].
    + discriminate.
Qed.

Lemma arrayFromLoop_length (mapFn : nat -> Alloc Value) (count : nat) :
  forall i next, List.length (fst (arrayFromLoop mapFn i count next)) = count.
Proof.
  induction count as [| count IH]; intros i next; simpl; [reflexivity |].
  unfold bind, ret. destruct (mapFn i next) as [x next1].
  specialize (IH (S i) next1).
  destruct (arrayFromLoop mapFn (S i) count next1) as [xs next2].
  simpl in *. now rewrite IH.
Qed.

(** Element [j] of the array is the callback's value at index [i + j]. *)
Lemma arrayFromLoop_nth (mapFn : nat -> Alloc Value) (count : nat) :
  forall i next j, (j < count)%nat ->
    exists st, nth_error (fst (arrayFromLoop mapFn i count next)) j
               = Some (fst (mapFn (i + j)%nat st)).
Proof.
  induction count as [| count IH]; intros i next j Hj; [lia |].
  simpl. unfold bind, ret.
  destruct (mapFn i next) as [x next1] eqn:Ex.
  specialize (IH (S i) next1).
  destruct (arrayFromLoop mapFn (S i) count next1) as [xs next2].
  destruct j as [| j]; simpl.
  - exists next. now rewrite Nat.add_0_r, Ex.
  - destruct (IH j ltac:(lia)) as [st Hst]. exists st.
    simpl in Hst. rewrite Hst. now rewrite Nat.add_succ_r.
Qed.

Lemma transform_empty (fuel : nat) (fieldsOrField : FieldsOrField)
    (targetSize : Z) (mockLabel : string) (next : nat) :
  transform fuel [] fieldsOrField targetSize mockLabel next
  = Some (Fresh (fst (Array_from targetSize
                        (mockRecord (fieldsOf fieldsOrField) mockLabel) next)),
          snd (Array_from targetSize
                 (mockRecord (fieldsOf fieldsOrField) mockLabel) next)).
Proof.
  unfold transform. simpl.
  now destruct (Array_from targetSize
                  (mockRecord (fieldsOf fieldsOrField) mockLabel) next).
Qed.

(** C5, as the code has it.  On the empty input, with designated field
    names other than [__proto__], [transform] returns a new array of
    [targetSize] records, none when [targetSize] is negative.  Record [i]
    holds a placeholder of label [mockLabel] under every designated field
    name, and under ["id"] the number [i] unless ["id"] is itself a
    designated field; it has no other property, and only the [id] property
    when no field is designated. *)
Theorem transform_empty_records (fuel : nat) (fieldsOrField : FieldsOrField)
    (targetSize : Z) (mockLabel : string) (next : nat) :
  let fields := fieldsOf fieldsOrField in
  ~ In "__proto__"%string fields ->
  exists records next',
    transform fuel [] fieldsOrField targetSize mockLabel next
    = Some (Fresh records, next')
    /\ Z.of_nat (List.length records) = Z.max 0 targetSize
    /\ forall i, (i < List.length records)%nat ->
         exists props,
           nth_error records i = Some (VObject props)
           /\ (~ In "id"%string fields ->
               lookupProperty props "id" = Some (VNumber (Z.of_nat i)))
           /\ (forall f, In f fields ->
                 exists id, lookupProperty props f = Some (VMock id mockLabel))
           /\ (forall name, lookupProperty props name <> None ->
                 name = "id"%string \/ In name fields)
           /\ (fields = [] -> props = [("id"%string, VNumber (Z.of_nat i))]).
Proof.
  intros fields _. rewrite transform_empty. fold fields.
  eexists. eexists. split; [reflexivity |].
  unfold Array_from, ToLength. rewrite arrayFromLoop_length.
  split; [lia |].
  intros i Hi.
  destruct (arrayFromLoop_nth (mockRecord fields mockLabel)
              (Z.to_nat targetSize) 0 next i Hi) as [st Hst].
  destruct (mockRecord_spec fields mockLabel i st) as [props [Hp Hrest]].
  exists props. split; [| exact Hrest].
  rewrite Hst. simpl. now rewrite Hp.
Qed.

Lemma transform_empty_records_witness :
  exists records next',
    transform 0 [] (OneField "profile") 2 "mock" 0
    = Some (Fresh records, next')
    /\ Z.of_nat (List.length records) = Z.max 0 2
    /\ forall i, (i < List.length records)%nat ->
         exists props,
           nth_error records i = Some (VObject props)
           /\ (~ In "id"%string (fieldsOf (OneField "profile")) ->
               lookupProperty props "id" = Some (VNumber (Z.of_nat i)))
           /\ (forall f, In f (fieldsOf (OneField "profile")) ->
                 exists id, lookupProperty props f = Some (VMock id "mock"))
           /\ (forall name, lookupProperty props name <> None ->
                 name = "id"%string \/ In name (fieldsOf (OneField "profile")))
           /\ (fieldsOf (OneField "profile") = [] ->
               props = [("id"%string, VNumber (Z.of_nat i))]).
Proof.
  apply (transform_empty_records 0 (OneField "profile") 2 "mock" 0).
  simpl. intros [H | []]. discriminate.
Defined.

(** The example of the specification: no field and target size 100. *)
Example transform_empty_100 :
  transform 0 [] (FieldArray []) 100 "mock" 0
  = Some (Fresh (map (fun i => VObject [("id"%string, VNumber (Z.of_nat i))])
                   (seq 0 100)), 0).
Proof. vm_compute. reflexivity. Qed.

Example transform_empty_profile :
  transform 0 [] (OneField "profile") 2 "mock" 0
  = Some (Fresh [VObject [("id"%string, VNumber 0);
                          ("profile"%string, VMock 0 "mock")];
                 VObject [("id"%string, VNumber 1);
                          ("profile"%string, VMock 1 "mock")]], 2).
Proof. reflexivity. Qed.

(** C5, as stated, fails when ["id"] is a designated field: the index is
    overwritten by the placeholder. *)
Lemma transform_empty_id_overwritten :
  transform 0 [] (FieldArray ["id"%string]) 1 "mock" 0
  = Some (Fresh [VObject [("id"%string, VMock 0 "mock")]], 1)
  /\ lookupProperty [("id"%string, VMock 0 "mock")] "id"
     <> Some (VNumber 0).
Proof. split; [reflexivity | discriminate]. Qed.

(** The pipe used without arguments on an empty array: a hundred records. *)
Example transformWithDefaults_empty :
  transformWithDefaults 0 [] FieldsOmitted None None 0
  = transform 0 [] (FieldArray []) 100 "mock" 0.
Proof. vm_compute. reflexivity. Qed.

(** A negative target size gives no record. *)
Example transform_empty_negative :
  transform 0 [] FieldsOmitted (-1) "mock" 0 = Some (Fresh [], 0).
Proof. reflexivity. Qed.

(* ------------------------------------------------------------------ *)
(** ** [MockMorePipe.transform]: sufficient input, idempotence, ending *)
(* ------------------------------------------------------------------ *)

Lemma transform_sufficient (fuel : nat) (value : list Value)
    (fieldsOrField : FieldsOrField) (targetSize : Z) (mockLabel : string)
    (next : nat) :
  value <> [] ->
  (targetSize <= Z.of_nat (List.length value))%Z ->
  transform fuel value fieldsOrField targetSize mockLabel next
  = Some (Input, next).
Proof.
  intros Hne Hge. unfold transform.
  destruct (Z.eqb_spec (Z.of_nat (List.length value)) 0) as [E | _].
  - destruct value; [congruence | simpl in E; lia].
  - apply Z.ltb_ge in Hge. now rewrite Hge.
Qed.

Lemma Array_from_nonpositive (targetSize : Z) (mapFn : nat -> Alloc Value)
    (next : nat) :
  (targetSize <= 0)%Z -> Array_from targetSize mapFn next = ([], next).
Proof.
  intros H. unfold Array_from, ToLength.
  replace (Z.to_nat targetSize) with 0%nat by lia. reflexivity.
Qed.

Lemma Array_from_length (targetSize : Z) (mapFn : nat -> Alloc Value)
    (next : nat) :
  List.length (fst (Array_from targetSize mapFn next)) = Z.to_nat targetSize.
Proof. apply arrayFromLoop_length. Qed.

(** Applying [transform] to its own result changes nothing. *)
Lemma transform_idempotent (fuel fuel' : nat) (value : list Value)
    (fieldsOrField : FieldsOrField) (targetSize : Z) (mockLabel : string)
    (next next' : nat) (r : Returned) :
  transform fuel value fieldsOrField targetSize mockLabel next
  = Some (r, next') ->
  exists r',
    transform fuel' (contents value r) fieldsOrField targetSize mockLabel next'
    = Some (r', next')
    /\ contents (contents value r) r' = contents value r.
Proof.
  destruct value as [| x rest].
  - rewrite transform_empty. intros [= <- <-]. simpl contents.
    destruct (Z.le_gt_cases targetSize 0) as [Hle | Hgt].
    + rewrite (Array_from_nonpositive _ _ _ Hle). simpl.
      rewrite transform_empty, (Array_from_nonpositive _ _ _ Hle).
      simpl. eexists. split; reflexivity.
    + exists Input. split; [| reflexivity].
      pose proof (Array_from_length targetSize
                    (mockRecord (fieldsOf fieldsOrField) mockLabel) next) as Hlen.
      apply transform_sufficient.
      * intros E. rewrite E in Hlen. simpl in Hlen. lia.
      * rewrite Hlen. lia.
  - unfold transform at 1.
    destruct (Z.eqb_spec (Z.of_nat (List.length (x :: rest))) 0) as [E | _];
      [simpl in E; lia |].
    destruct (Z.ltb_spec (Z.of_nat (List.length (x :: rest))) targetSize)
      as [Hlt | Hge].
    + destruct (growLoop fuel (x :: rest) targetSize (x :: rest))
        as [result |] eqn:Hloop; [| discriminate].
      intros [= <- <-]. simpl contents.
      apply growLoop_Some in Hloop as [Hlen [j ->]].
      exists Input. split; [| reflexivity].
      apply transform_sufficient; [discriminate | exact Hlen].
    + intros [= <- <-]. simpl contents.
      exists Input. split; [| reflexivity].
      apply transform_sufficient; [discriminate | exact Hge].
Qed.

(** C7.  When [value.length >= targetSize], [transform] returns the input
    sequence unchanged (the very array when it is not empty); and
    [transform] is idempotent: applied with the same arguments to the
    result of a first application, it returns that result. *)
Theorem transform_unchanged_idempotent (fuel fuel' : nat) (value : list Value)
    (fieldsOrField : FieldsOrField) (targetSize : Z) (mockLabel : string)
    (next : nat) :
  ((targetSize <= Z.of_nat (List.length value))%Z ->
   exists r next',
     transform fuel value fieldsOrField targetSize mockLabel next
     = Some (r, next')
     /\ contents value r = value
     /\ (value <> [] -> r = Input /\ next' = next))
  /\ (forall r next',
        transform fuel value fieldsOrField targetSize mockLabel next
        = Some (r, next') ->
        exists r',
          transform fuel' (contents value r) fieldsOrField targetSize
            mockLabel next' = Some (r', next')
          /\ contents (contents value r) r' = contents value r).
Proof.
  split.
  - intros Hge. destruct value as [| x rest].
    + rewrite transform_empty.
      rewrite Array_from_nonpositive by (simpl in Hge; lia).
      simpl. eexists. eexists. repeat split; congruence.
    + rewrite transform_sufficient; [| discriminate | exact Hge].
      exists Input, next. repeat split.
  - intros r next'. apply transform_idempotent.
Qed.

(** The examples of the specification: five elements with target size 3. *)
Example transform_sufficient_example :
  transform 0 [VNumber 1; VNumber 2; VNumber 3; VNumber 4; VNumber 5]
    FieldsOmitted 3 "mock" 0 = Some (Input, 0).
Proof. reflexivity. Qed.

(** C9.  [transform] runs to completion on every input: a bound of
    [targetSize] iterations is enough for the loop of the duplication
    branch, whose accumulator grows by [value.length >= 1] each time. *)
Theorem transform_terminates (value : list Value)
    (fieldsOrField : FieldsOrField) (targetSize : Z) (mockLabel : string)
    (next : nat) :
  exists r next',
    forall fuel, (Z.to_nat targetSize <= fuel)%nat ->
      transform fuel value fieldsOrField targetSize mockLabel next
      = Some (r, next').
Proof.
  destruct value as [| x rest].
  - eexists. eexists. intros fuel _. apply transform_empty.
  - destruct (Z.lt_ge_cases (Z.of_nat (List.length (x :: rest))) targetSize)
      as [Hlt | Hge].
    + eexists. eexists. intros fuel Hfuel.
      apply transform_grows; [discriminate | exact Hlt | exact Hfuel].
    + exists Input, next. intros fuel _.
      apply transform_sufficient; [discriminate | exact Hge].
Qed.

(* ------------------------------------------------------------------ *)
(** ** skipUntilNonNull                                                *)
(* ------------------------------------------------------------------ *)

Section SkipUntilNonNullFacts.

Context {T : Type}.

(** Once [hasEmitted] is set, every value passes and it stays set. *)
Lemma subscribe_hasEmitted (source : list (Nullable T)) :
  subscribe true source = (source, true).
Proof.
  induction source as [| value rest IH]; simpl; [reflexivity |].
  now rewrite IH.
Qed.

(** A subscription that starts with [hasEmitted] unset drops the longest
    prefix of [null] and [undefined] values and passes the rest, and it
    leaves [hasEmitted] set when the source had a value that is neither. *)
Lemma subscribe_initial (source : list (Nullable T)) :
  subscribe false source
  = (dropNullishPrefix source, existsb notNullish source).
Proof.
  induction source as [| value rest IH]; simpl; [reflexivity |].
  unfold predicate. destruct (notNullish value) eqn:E; simpl.
  - now rewrite subscribe_hasEmitted.
  - now rewrite IH.
Qed.

(** Later subscriptions find the variable as the earlier ones left it: after
    a subscription that saw a value, nothing is dropped any more. *)
Lemma subscriptions_after_value (first : list (Nullable T))
    (later : list (list (Nullable T))) :
  existsb notNullish first = true ->
  subscriptions false (first :: later) = dropNullishPrefix first :: later.
Proof.
  intros H. simpl. rewrite subscribe_initial, H. f_equal.
  induction later as [| source rest IH]; simpl; [reflexivity |].
  now rewrite subscribe_hasEmitted, IH.
Qed.

End SkipUntilNonNullFacts.

(** C10 on the code.  Two subscriptions to one
    [of(null, 1).pipe(skipUntilNonNull())]: the first drops the leading
    [null]; the second, which finds [hasEmitted] already set, passes it, so
    its output is not its input without the longest null prefix. *)
Example skipUntilNonNull_second_subscription :
  subscriptions initialHasEmitted [[JsNull; NonNull 1]; [JsNull; NonNull 1]]
  = [[NonNull 1]; [JsNull; NonNull 1]]
  /\ dropNullishPrefix [JsNull; NonNull 1] = [NonNull 1]
  /\ [JsNull; NonNull 1] <> dropNullishPrefix [JsNull; NonNull 1].
Proof. repeat split. discriminate. Qed.

(* ================================================================== *)
(** * Part III.  Further properties of the code                        *)
(* ================================================================== *)

(* ------------------------------------------------------------------ *)
(** ** Selection tri-state: the result read backwards, and what it
       depends on                                                      *)
(* ------------------------------------------------------------------ *)

Lemma stateOfFlags_default (s u : bool) :
  stateOfFlags defaultStateMapper s u
  = if s && u then indeterminate else if s then all else none.
Proof. reflexivity. Qed.

(** With the default state mapper each of the three results tells which of
    the three situations holds: 'indeterminate' exactly when some item
    matches and some does not, 'all' exactly when there are items and all
    of them match, 'none' exactly when no item matches. *)
Theorem computeSelectionTriStateByCompare_characterised {T : Type}
    (allItems selectedItems : list T) (compareFn : T -> T -> bool) :
  let result := computeSelectionTriStateByCompare allItems selectedItems
                  compareFn defaultStateMapper in
  (result = indeterminate
   <-> (exists x, In x allItems /\ Matches compareFn selectedItems x)
       /\ (exists y, In y allItems /\ ~ Matches compareFn selectedItems y))
  /\ (result = all
      <-> allItems <> []
          /\ forall x, In x allItems -> Matches compareFn selectedItems x)
  /\ (result = none
      <-> forall x, In x allItems -> ~ Matches compareFn selectedItems x).
Proof.
  intros result. unfold result.
  rewrite computeSelectionTriStateByCompare_flags, stateOfFlags_default.
  rewrite <- some_selected_iff, <- some_unselected_iff,
    <- none_selected_iff, <- none_unselected_iff.
  destruct (existsb (isSelectedBy compareFn selectedItems) allItems) eqn:Hs;
    destruct (existsb (fun x => negb (isSelectedBy compareFn selectedItems x))
                allItems) eqn:Hu; simpl.
  all: repeat split; try discriminate; try tauto;
    try (intros [H1 H2]; discriminate).
  - intros E. subst allItems. discriminate.
  - intros [Hne _]. destruct allItems as [| x rest]; [congruence |].
    simpl in Hs, Hu. destruct (isSelectedBy compareFn selectedItems x);
      simpl in Hs, Hu; discriminate.
Qed.

Lemma existsb_same_elements {A : Type} (p : A -> bool) (l l' : list A) :
  (forall a, In a l <-> In a l') -> existsb p l = existsb p l'.
Proof.
  intros H.
  destruct (existsb p l) eqn:E1, (existsb p l') eqn:E2; trivial.
  - apply existsb_exists in E1 as [a [Ha Hp]].
    assert (existsb p l' = true)
      by (apply existsb_exists; exists a; split; [now apply H | assumption]).
    congruence.
  - apply existsb_exists in E2 as [a [Ha Hp]].
    assert (existsb p l = true)
      by (apply existsb_exists; exists a; split; [now apply H | assumption]).
    congruence.
Qed.

Lemma byCompare_same_elements {T R : Type} (allItems allItems' : list T)
    (selectedItems selectedItems' : list T) (compareFn : T -> T -> bool)
    (stateMapper : TriState -> R) :
  (forall x, In x allItems <-> In x allItems') ->
  (forall s, In s selectedItems <-> In s selectedItems') ->
  computeSelectionTriStateByCompare allItems selectedItems compareFn stateMapper
  = computeSelectionTriStateByCompare allItems' selectedItems' compareFn
      stateMapper.
Proof.
  intros Hall Hsel. rewrite !computeSelectionTriStateByCompare_flags.
  assert (forall x, isSelectedBy compareFn selectedItems x
                    = isSelectedBy compareFn selectedItems' x) as Hx.
  { intros x. unfold isSelectedBy. now apply existsb_same_elements. }
  rewrite (existsb_same_elements _ allItems allItems' Hall).
  rewrite (existsb_same_elements (fun x => negb _) allItems allItems' Hall).
  f_equal; apply existsb_ext_In; intros x _; now rewrite Hx.
Qed.

(** The comparator form depends on [allItems] and on [selectedItems] only
    through the elements they hold: order and repetitions in either list
    do not change the result. *)
Theorem computeSelectionTriStateByCompare_sets {T R : Type}
    (allItems allItems' selectedItems selectedItems' : list T)
    (compareFn : T -> T -> bool) (stateMapper : TriState -> R) :
  (forall x, In x allItems <-> In x allItems') ->
  (forall s, In s selectedItems <-> In s selectedItems') ->
  computeSelectionTriStateByCompare allItems selectedItems compareFn stateMapper
  = computeSelectionTriStateByCompare allItems' selectedItems' compareFn
      stateMapper.
Proof. apply byCompare_same_elements. Qed.

Lemma computeSelectionTriStateByCompare_sets_witness :
  computeSelectionTriStateByCompare [1; 2; 2; 3] [2; 5] Nat.eqb defaultStateMapper
  = computeSelectionTriStateByCompare [3; 1; 2] [5; 2; 5] Nat.eqb
      defaultStateMapper.
Proof.
  apply (computeSelectionTriStateByCompare_sets
           [1; 2; 2; 3] [3; 1; 2] [2; 5] [5; 2; 5]);
    intros x; simpl; tauto.
Defined.

(** The key form depends on the two lists only through the elements they
    hold, too. *)
Theorem computeSelectionTriStateByKey_sets {T R FieldName : Type}
    (readField : T -> FieldName -> Key)
    (allItems allItems' selectedItems selectedItems' : list T)
    (keyOrExtractor : KeyOrExtractor T FieldName)
    (stateMapper : TriState -> R) :
  (forall x, In x allItems <-> In x allItems') ->
  (forall s, In s selectedItems <-> In s selectedItems') ->
  computeSelectionTriStateByKey readField allItems selectedItems
    keyOrExtractor stateMapper
  = computeSelectionTriStateByKey readField allItems' selectedItems'
      keyOrExtractor stateMapper.
Proof.
  intros Hall Hsel. rewrite !computeSelectionTriStateByKey_sameValueZero.
  now apply byCompare_same_elements.
Qed.

Lemma computeSelectionTriStateByKey_sets_witness :
  computeSelectionTriStateByKey noField [1; 2; 2; 3]%float [2; 5]%float
    scoreOf defaultStateMapper
  = computeSelectionTriStateByKey noField [3; 1; 2]%float [5; 2; 5]%float
      scoreOf defaultStateMapper.
Proof.
  apply (computeSelectionTriStateByKey_sets noField
           [1; 2; 2; 3]%float [3; 1; 2]%float [2; 5]%float [5; 2; 5]%float);
    intros x; simpl; tauto.
Defined.

Lemma sameValueZero_refl (k : Key) : sameValueZero k k = true.
Proof. now apply sameValueZero_iff. Qed.

(** When every item of a non-empty [allItems] is itself among
    [selectedItems], the key form returns 'all' whatever the keys are, the
    key [NaN] included; the comparator form does so when the comparator
    finds every item equal to itself. *)
Theorem computeSelectionTriState_everything_selected {T R FieldName : Type}
    (readField : T -> FieldName -> Key) (allItems selectedItems : list T)
    (compareFn : T -> T -> bool) (keyOrExtractor : KeyOrExtractor T FieldName)
    (stateMapper : TriState -> R) :
  allItems <> [] ->
  (forall x, In x allItems -> In x selectedItems) ->
  computeSelectionTriStateByKey readField allItems selectedItems
    keyOrExtractor stateMapper = stateMapper all
  /\ ((forall x, compareFn x x = true) ->
      computeSelectionTriStateByCompare allItems selectedItems compareFn
        stateMapper = stateMapper all).
Proof.
  intros Hne Hincl. split.
  - rewrite computeSelectionTriStateByKey_sameValueZero.
    apply byCompare_all; [assumption |].
    intros x Hx. exists x. split; [now apply Hincl |].
    apply sameValueZero_refl.
  - intros Hrefl. apply byCompare_all; [assumption |].
    intros x Hx. exists x. split; [now apply Hincl | apply Hrefl].
Qed.

Lemma computeSelectionTriState_everything_selected_witness :
  computeSelectionTriStateByKey noField [nan; 1]%float [1; nan; 2]%float
    scoreOf defaultStateMapper = all.
Proof.
  apply (computeSelectionTriState_everything_selected noField
           [nan; 1]%float [1; nan; 2]%float PrimFloat.eqb scoreOf
           defaultStateMapper).
  - discriminate.
  - intros x; simpl; tauto.
Defined.

(** With nothing selected both forms return 'none', whatever [allItems]
    is. *)
Theorem computeSelectionTriState_nothing_selected {T R FieldName : Type}
    (readField : T -> FieldName -> Key) (allItems : list T)
    (compareFn : T -> T -> bool) (keyOrExtractor : KeyOrExtractor T FieldName)
    (stateMapper : TriState -> R) :
  computeSelectionTriStateByCompare allItems [] compareFn stateMapper
  = stateMapper none
  /\ computeSelectionTriStateByKey readField allItems [] keyOrExtractor
       stateMapper = stateMapper none.
Proof.
  split; [| rewrite computeSelectionTriStateByKey_sameValueZero];
    apply byCompare_none; intros x _ [s [[] _]].
Qed.

(* ------------------------------------------------------------------ *)
(** ** [MockMorePipe.transform]: size, order and the proxies           *)
(* ------------------------------------------------------------------ *)

(** Whatever [transform] returns holds at least [targetSize] elements. *)
Theorem transform_reaches_targetSize (fuel : nat) (value : list Value)
    (fieldsOrField : FieldsOrField) (targetSize : Z) (mockLabel : string)
    (next next' : nat) (r : Returned) :
  transform fuel value fieldsOrField targetSize mockLabel next
  = Some (r, next') ->
  (targetSize <= Z.of_nat (List.length (contents value r)))%Z.
Proof.
  destruct value as [| x rest].
  - rewrite transform_empty. intros [= <- _]. simpl contents.
    rewrite Array_from_length. lia.
  - unfold transform.
    destruct (Z.eqb_spec (Z.of_nat (List.length (x :: rest))) 0) as [E | _];
      [simpl in E; lia |].
    destruct (Z.ltb_spec (Z.of_nat (List.length (x :: rest))) targetSize)
      as [Hlt | Hge].
    + destruct (growLoop fuel (x :: rest) targetSize (x :: rest))
        as [result |] eqn:Hloop; [| discriminate].
      intros [= <- _]. simpl contents.
      now apply growLoop_Some in Hloop as [Hlen _].
    + intros [= <- _]. exact Hge.
Qed.

Lemma transform_reaches_targetSize_witness :
  (7 <= Z.of_nat (List.length
                    (contents [VNumber 1; VNumber 2]
                       (Fresh [VNumber 1; VNumber 2; VNumber 1; VNumber 2;
                               VNumber 1; VNumber 2; VNumber 1; VNumber 2]))))%Z.
Proof.
  apply (transform_reaches_targetSize 7 [VNumber 1; VNumber 2] FieldsOmitted 7
           "mock" 0 0).
  reflexivity.
Defined.

Lemma copies_nth_error (value : list Value) (k i : nat) :
  (i < k * List.length value)%nat ->
  nth_error (copies k value) i = nth_error value (i mod List.length value).
Proof.
  revert i. induction k as [| k IH]; intros i Hi; [simpl in Hi; lia |].
  change (copies (S k) value) with (value ++ copies k value).
  destruct (Nat.lt_ge_cases i (List.length value)) as [Hlt | Hge].
  - rewrite nth_error_app1 by assumption. now rewrite Nat.mod_small.
  - rewrite nth_error_app2 by assumption.
    rewrite IH by (simpl in Hi; lia).
    f_equal.
    replace i with ((i - List.length value) + 1 * List.length value)%nat at 2
      by lia.
    now rewrite Nat.Div0.mod_add.
Qed.

(** On a non-empty input the returned array repeats the input cyclically:
    its element of index [i] is the input's element of index
    [i mod value.length].  Nothing is reordered, dropped or invented. *)
Theorem transform_cyclic (fuel : nat) (value : list Value)
    (fieldsOrField : FieldsOrField) (targetSize : Z) (mockLabel : string)
    (next next' : nat) (r : Returned) :
  value <> [] ->
  transform fuel value fieldsOrField targetSize mockLabel next
  = Some (r, next') ->
  forall i, (i < List.length (contents value r))%nat ->
    nth_error (contents value r) i
    = nth_error value (i mod List.length value).
Proof.
  intros Hne. unfold transform.
  destruct (Z.eqb_spec (Z.of_nat (List.length value)) 0) as [E | _].
  { destruct value; [congruence | simpl in E; lia]. }
  destruct (Z.ltb_spec (Z.of_nat (List.length value)) targetSize)
    as [Hlt | Hge].
  - destruct (growLoop fuel value targetSize value) as [result |] eqn:Hloop;
      [| discriminate].
    intros [= <- _] i Hi. simpl contents in *.
    apply growLoop_Some in Hloop as [_ [j ->]].
    change (value ++ copies j value) with (copies (S j) value) in *.
    apply copies_nth_error. now rewrite copies_length in Hi.
  - intros [= <- _] i Hi. simpl contents in *. now rewrite Nat.mod_small.
Qed.

Lemma transform_cyclic_witness :
  nth_error (contents [VNumber 1; VNumber 2; VNumber 3]
               (Fresh (copies 4 [VNumber 1; VNumber 2; VNumber 3]))) 7
  = nth_error [VNumber 1; VNumber 2; VNumber 3] (7 mod 3).
Proof.
  apply (transform_cyclic 10 [VNumber 1; VNumber 2; VNumber 3] FieldsOmitted
           10 "mock" 0 0).
  - discriminate.
  - reflexivity.
  - simpl. lia.
Defined.

Lemma assignMocks_next (fields : list string) (mockLabel : string) :
  forall base next,
    snd (assignMocks fields mockLabel base next)
    = (next + List.length fields)%nat.
Proof.
  induction fields as [| f rest IH]; intros base next; simpl.
  - unfold ret. simpl. lia.
  - unfold bind. simpl. rewrite IH. lia.
Qed.

(** The field of position [j] ends up with the proxy numbered [next + j]. *)
Lemma assignMocks_ids (fields : list string) (mockLabel : string) :
  NoDup fields ->
  forall base next j f,
    nth_error fields j = Some f ->
    lookupProperty (fst (assignMocks fields mockLabel base next)) f
    = Some (VMock (next + j) mockLabel).
Proof.
  induction 1 as [| f0 rest Hnotin Hnodup IH]; intros base next j f Hj.
  - destruct j; discriminate.
  - simpl. unfold bind. simpl. destruct j as [| j]; simpl in Hj.
    + injection Hj as <-.
      destruct (assignMocks_spec rest mockLabel
                  (setProperty base f0 (VMock next mockLabel)) (S next))
        as [_ Hout].
      rewrite Hout by assumption. rewrite Nat.add_0_r.
      apply lookupProperty_set_same.
    + rewrite (IH _ (S next) j f Hj). f_equal. f_equal. lia.
Qed.

Lemma mockRecord_next (fields : list string) (mockLabel : string) (i next : nat) :
  snd (mockRecord fields mockLabel i next) = (next + List.length fields)%nat.
Proof.
  unfold mockRecord, bind. destruct fields as [| f rest].
  - simpl. lia.
  - replace (0 <? List.length (f :: rest))%nat with true by reflexivity.
    pose proof (assignMocks_next (f :: rest) mockLabel
                  [("id"%string, VNumber (Z.of_nat i))] next) as H.
    destruct (assignMocks (f :: rest) mockLabel
                [("id"%string, VNumber (Z.of_nat i))] next). simpl in *.
    exact H.
Qed.

Lemma mockRecord_ids (fields : list string) (mockLabel : string) (i next : nat) :
  NoDup fields ->
  forall j f, nth_error fields j = Some f ->
    exists props,
      fst (mockRecord fields mockLabel i next) = VObject props
      /\ lookupProperty props f = Some (VMock (next + j) mockLabel).
Proof.
  intros Hnodup j f Hj. unfold mockRecord, bind.
  destruct fields as [| f0 rest]; [destruct j; discriminate |].
  replace (0 <? List.length (f0 :: rest))%nat with true by reflexivity.
  pose proof (assignMocks_ids (f0 :: rest) mockLabel Hnodup
                [("id"%string, VNumber (Z.of_nat i))] next j f Hj) as H.
  destruct (assignMocks (f0 :: rest) mockLabel
              [("id"%string, VNumber (Z.of_nat i))] next) as [props next'].
  simpl in *. exists props. split; [reflexivity | exact H].
Qed.

(** When every call of the callback uses [m] identities, the call for the
    element of index [j] starts at [next + j * m]. *)
Lemma arrayFromLoop_states (mapFn : nat -> Alloc Value) (m : nat) :
  (forall i st, snd (mapFn i st) = (st + m)%nat) ->
  forall count i next,
    snd (arrayFromLoop mapFn i count next) = (next + count * m)%nat
    /\ forall j, (j < count)%nat ->
         nth_error (fst (arrayFromLoop mapFn i count next)) j
         = Some (fst (mapFn (i + j)%nat (next + j * m)%nat)).
Proof.
  intros Hm. induction count as [| count IH]; intros i next.
  - split; [simpl; lia | intros j Hj; lia].
  - simpl. unfold bind, ret.
    pose proof (Hm i next) as Hnext.
    destruct (mapFn i next) as [x next1] eqn:Ex. simpl in Hnext. subst next1.
    destruct (IH (S i) (next + m)%nat) as [IHs IHn].
    destruct (arrayFromLoop mapFn (S i) count (next + m)%nat) as [xs next2].
    simpl in *. split; [lia |].
    intros [| j] Hj; simpl.
    + replace (i + 0)%nat with i by lia.
      replace (next + 0)%nat with next by lia. now rewrite Ex.
    + rewrite IHn by lia. do 3 f_equal; lia.
Qed.

(** On the empty input with distinct field names other than [__proto__],
    the field of position [j] of the record of index [i] holds the proxy
    numbered [next + i * fields.length + j]: every field of every record
    has a proxy of its own, and [targetSize * fields.length] proxies are
    created. *)
Theorem transform_empty_proxies (fuel : nat) (fieldsOrField : FieldsOrField)
    (targetSize : Z) (mockLabel : string) (next : nat) :
  let fields := fieldsOf fieldsOrField in
  NoDup fields ->
  ~ In "__proto__"%string fields ->
  exists records,
    transform fuel [] fieldsOrField targetSize mockLabel next
    = Some (Fresh records,
            (next + Z.to_nat targetSize * List.length fields)%nat)
    /\ forall i j f,
         (i < Z.to_nat targetSize)%nat -> nth_error fields j = Some f ->
         exists props,
           nth_error records i = Some (VObject props)
           /\ lookupProperty props f
              = Some (VMock (next + i * List.length fields + j) mockLabel).
Proof.
  intros fields Hnodup _. rewrite transform_empty. fold fields.
  unfold Array_from, ToLength.
  destruct (arrayFromLoop_states (mockRecord fields mockLabel)
              (List.length fields) (mockRecord_next fields mockLabel)
              (Z.to_nat targetSize) 0%nat next) as [Hs Hn].
  eexists. split; [now rewrite Hs |].
  intros i j f Hi Hj. rewrite (Hn i Hi).
  destruct (mockRecord_ids fields mockLabel (0 + i)
              (next + i * List.length fields) Hnodup j f Hj)
    as [props [Hp Hl]].
  exists props. split; [now rewrite Hp | exact Hl].
Qed.

Lemma transform_empty_proxies_witness :
  exists records,
    transform 0 [] (FieldArray ["a"%string; "b"%string]) 2 "mock" 5
    = Some (Fresh records, 9%nat)
    /\ forall i j f,
         (i < 2)%nat -> nth_error ["a"%string; "b"%string] j = Some f ->
         exists props,
           nth_error records i = Some (VObject props)
           /\ lookupProperty props f = Some (VMock (5 + i * 2 + j) "mock").
Proof.
  apply (transform_empty_proxies 0 (FieldArray ["a"%string; "b"%string]) 2
           "mock" 5).
  - repeat constructor; simpl; intuition discriminate.
  - simpl. intros [H | [H | []]]; discriminate.
Defined.

(* ------------------------------------------------------------------ *)
(** ** skipUntilNonNull: one subscription, and the shared variable     *)
(* ------------------------------------------------------------------ *)

Lemma dropNullishPrefix_app {T : Type} (dropped rest : list (Nullable T)) :
  forallb (fun v => negb (notNullish v)) dropped = true ->
  dropNullishPrefix (dropped ++ rest) = dropNullishPrefix rest.
Proof.
  induction dropped as [| v dropped IH]; simpl; [reflexivity |].
  intros H. apply andb_true_iff in H as [Hv Hd].
  apply negb_true_iff in Hv. rewrite Hv. now apply IH.
Qed.

(** A subscription that finds [hasEmitted] unset drops the [null] and
    [undefined] values that come before the first other value and passes
    that value and everything after it, later [null] and [undefined] values
    included. *)
Theorem skipUntilNonNull_first_subscription {T : Type}
    (dropped : list (Nullable T)) (x : T) (rest : list (Nullable T)) :
  forallb (fun v => negb (notNullish v)) dropped = true ->
  subscribe initialHasEmitted (dropped ++ NonNull x :: rest)
  = (NonNull x :: rest, true).
Proof.
  intros H. unfold initialHasEmitted. rewrite subscribe_initial.
  rewrite dropNullishPrefix_app by assumption. simpl.
  f_equal. rewrite existsb_app. simpl. apply orb_true_r.
Qed.

Lemma skipUntilNonNull_first_subscription_witness :
  subscribe initialHasEmitted
    ([JsNull; JsUndefined] ++ NonNull 1 :: [JsNull; NonNull 2])
  = (NonNull 1 :: [JsNull; NonNull 2], true).
Proof.
  apply (skipUntilNonNull_first_subscription [JsNull; JsUndefined] 1
           [JsNull; NonNull 2]).
  reflexivity.
Defined.

(** Whatever [hasEmitted] is when a subscription starts, what it drops is
    a prefix of [null] and [undefined] values, what it passes is the rest
    of the source in order, and [hasEmitted] is set afterwards exactly when
    it was set before or the source had a value that is neither. *)
Theorem skipUntilNonNull_drops_a_nullish_prefix {T : Type}
    (hasEmitted : bool) (source : list (Nullable T)) :
  exists dropped,
    source = dropped ++ fst (subscribe hasEmitted source)
    /\ forallb (fun v => negb (notNullish v)) dropped = true
    /\ snd (subscribe hasEmitted source)
       = hasEmitted || existsb notNullish source.
Proof.
  destruct hasEmitted.
  - rewrite subscribe_hasEmitted. exists []. repeat split.
  - rewrite subscribe_initial. simpl.
    induction source as [| v rest [dropped [Hsrc [Hd _]]]]; simpl.
    + exists []. repeat split.
    + destruct (notNullish v) eqn:Hv.
      * exists []. repeat split.
      * exists (v :: dropped). simpl. rewrite Hv, Hd.
        repeat split. now rewrite <- Hsrc.
Qed.

(** The variable [hasEmitted] belongs to the call of [skipUntilNonNull()]
    and not to a subscription: once a subscription has seen a value that
    is neither [null] nor [undefined], every later subscription to the same
    piped observable passes all of its source, leading [null]s included. *)
Theorem skipUntilNonNull_later_subscriptions {T : Type}
    (first : list (Nullable T)) (later : list (list (Nullable T))) :
  existsb notNullish first = true ->
  subscriptions initialHasEmitted (first :: later)
  = dropNullishPrefix first :: later.
Proof.
  intros H. unfold initialHasEmitted. simpl.
  rewrite subscribe_initial, H. f_equal.
  induction later as [| source rest IH]; simpl; [reflexivity |].
  now rewrite subscribe_hasEmitted, IH.
Qed.

Lemma skipUntilNonNull_later_subscriptions_witness :
  subscriptions initialHasEmitted
    ([JsNull; NonNull 1] :: [[JsNull; JsNull; NonNull 2]; [JsUndefined]])
  = dropNullishPrefix [JsNull; NonNull 1]
    :: [[JsNull; JsNull; NonNull 2]; [JsUndefined]].
Proof.
  apply (skipUntilNonNull_later_subscriptions [JsNull; NonNull 1]
           [[JsNull; JsNull; NonNull 2]; [JsUndefined]]).
  reflexivity.
Defined.

(* ------------------------------------------------------------------ *)
(** ** The range pipe                                                  *)
(* ------------------------------------------------------------------ *)

Lemma arithmeticList_cons (start step : Z) (count : nat) :
  arithmeticList start step (S count)
  = start :: arithmeticList (start + step) step count.
Proof.
  unfold arithmeticList. simpl. f_equal; [lia |].
  rewrite <- seq_shift, map_map. apply map_ext. intros j. lia.
Qed.

Lemma In_arithmeticList (start step : Z) (count : nat) (x : Z) :
  In x (arithmeticList start step count)
  <-> exists j, (j < count)%nat /\ x = (start + Z.of_nat j * step)%Z.
Proof.
  unfold arithmeticList. rewrite in_map_iff. split.
  - intros [j [<- Hj]]. apply in_seq in Hj. exists j. split; [lia | reflexivity].
  - intros [j [Hj ->]]. exists j. split; [reflexivity | apply in_seq; lia].
Qed.

Lemma ceilDiv_nonpositive (a s : Z) :
  (0 < s)%Z -> (a <= 0)%Z -> (ceilDiv a s <= 0)%Z.
Proof.
  intros Hs Ha. pose proof (ceilDiv_bounds a s Hs) as [Hlow _].
  set (k := ceilDiv a s) in *.
  destruct (Z.le_gt_cases k 0) as [H | H]; [assumption |].
  assert (0 <= (k - 1) * s)%Z by (apply Z.mul_nonneg_nonneg; lia). lia.
Qed.

Lemma ceilDiv_step (a s : Z) :
  (0 < s)%Z -> ceilDiv (a - s) s = (ceilDiv a s - 1)%Z.
Proof.
  intros Hs. unfold ceilDiv.
  replace (a - s + s - 1)%Z with (a + s - 1 + (-1) * s)%Z by lia.
  rewrite Z.div_add by lia. lia.
Qed.

Lemma ceilDiv_positive (a s : Z) :
  (0 < s)%Z -> (0 < a)%Z -> (0 < ceilDiv a s)%Z.
Proof.
  intros Hs Ha. pose proof (ceilDiv_bounds a s Hs) as [_ Hhigh].
  set (k := ceilDiv a s) in *.
  destruct (Z.le_gt_cases k 0) as [H | H]; [| lia].
  assert (k * s <= 0)%Z by (apply Z.mul_nonpos_nonneg; lia). lia.
Qed.

(** The ascending loop appends [ceil((stop - i) / step)] numbers. *)
Lemma countUp_arithmeticList (stop step : Z) :
  (0 < step)%Z ->
  forall fuel i result,
    (Z.to_nat (stop - i) <= fuel)%nat ->
    RangePipe.countUp fuel i stop step result
    = Some (result
            ++ arithmeticList i step (Z.to_nat (ceilDiv (stop - i) step))).
Proof.
  intros Hstep. induction fuel as [| fuel IH]; intros i result Hfuel; simpl;
    destruct (Z.ltb_spec i stop) as [Hlt | Hge]; try lia.
  - pose proof (ceilDiv_nonpositive (stop - i) step Hstep ltac:(lia)).
    replace (Z.to_nat (ceilDiv (stop - i) step)) with 0%nat by lia.
    now rewrite app_nil_r.
  - rewrite IH by lia.
    replace (stop - (i + step))%Z with (stop - i - step)%Z by lia.
    rewrite ceilDiv_step by assumption.
    pose proof (ceilDiv_positive (stop - i) step Hstep ltac:(lia)).
    replace (Z.to_nat (ceilDiv (stop - i) step))
      with (S (Z.to_nat (ceilDiv (stop - i) step - 1))) by lia.
    rewrite arithmeticList_cons, <- app_assoc. reflexivity.
  - pose proof (ceilDiv_nonpositive (stop - i) step Hstep ltac:(lia)).
    replace (Z.to_nat (ceilDiv (stop - i) step)) with 0%nat by lia.
    now rewrite app_nil_r.
Qed.

(** The descending loop appends [ceil((i - stop) / -step)] numbers. *)
Lemma countDown_arithmeticList (stop step : Z) :
  (step < 0)%Z ->
  forall fuel i result,
    (Z.to_nat (i - stop) <= fuel)%nat ->
    RangePipe.countDown fuel i stop step result
    = Some (result
            ++ arithmeticList i step (Z.to_nat (ceilDiv (i - stop) (- step)))).
Proof.
  intros Hstep. assert (0 < - step)%Z as Hneg by lia.
  induction fuel as [| fuel IH]; intros i result Hfuel; simpl;
    destruct (Z.gtb_spec i stop) as [Hgt | Hle]; try lia.
  - pose proof (ceilDiv_nonpositive (i - stop) (- step) Hneg ltac:(lia)).
    replace (Z.to_nat (ceilDiv (i - stop) (- step))) with 0%nat by lia.
    now rewrite app_nil_r.
  - rewrite IH by lia.
    replace (i + step - stop)%Z with (i - stop - (- step))%Z by lia.
    rewrite ceilDiv_step by assumption.
    pose proof (ceilDiv_positive (i - stop) (- step) Hneg ltac:(lia)).
    replace (Z.to_nat (ceilDiv (i - stop) (- step)))
      with (S (Z.to_nat (ceilDiv (i - stop) (- step) - 1))) by lia.
    rewrite arithmeticList_cons, <- app_assoc. reflexivity.
  - pose proof (ceilDiv_nonpositive (i - stop) (- step) Hneg ltac:(lia)).
    replace (Z.to_nat (ceilDiv (i - stop) (- step))) with 0%nat by lia.
    now rewrite app_nil_r.
Qed.

(** [j < ceil(a / s)] says that [j * s < a]. *)
Lemma lt_ceilDiv_iff (a s : Z) (j : nat) :
  (0 < s)%Z ->
  (j < Z.to_nat (ceilDiv a s))%nat <-> (Z.of_nat j * s < a)%Z.
Proof.
  intros Hs. pose proof (ceilDiv_bounds a s Hs) as [Hlow Hhigh].
  set (k := ceilDiv a s) in *. split.
  - intros Hj. assert (Z.of_nat j <= k - 1)%Z as Hle by lia.
    apply (Z.mul_le_mono_nonneg_r _ _ s) in Hle; lia.
  - intros Hj. assert (Z.of_nat j < k)%Z; [| lia].
    apply (Z.mul_lt_mono_pos_r s); lia.
Qed.

(** For safe integers and a positive step, [range(start, stop, step)]
    returns [start, start + step, ...] up to the last such number below
    [stop]: a number is in the result exactly when it is [start] plus a
    multiple of [step] and lies in [[start, stop)]. *)
Theorem range_ascending (fuel : nat) (start stop step : Z) :
  safeInteger start -> safeInteger stop -> safeInteger step ->
  (0 < step)%Z ->
  (Z.to_nat (stop - start) <= fuel)%nat ->
  exists result,
    RangePipe.transform fuel start (Some stop) (Some step)
    = Some (Returns result)
    /\ result = arithmeticList start step
                  (Z.to_nat (ceilDiv (stop - start) step))
    /\ forall x, In x result
                 <-> (start <= x < stop)%Z
                     /\ exists j, (0 <= j)%Z /\ x = (start + j * step)%Z.
Proof.
  intros _ _ _ Hstep Hfuel. eexists. split; [| split; [reflexivity |]].
  - unfold RangePipe.transform.
    destruct (Z.eqb_spec step 0); [lia |].
    destruct (Z.gtb_spec step 0); [| lia].
    rewrite countUp_arithmeticList by assumption. reflexivity.
  - intros x. rewrite In_arithmeticList. split.
    + intros [j [Hj ->]]. apply lt_ceilDiv_iff in Hj; [| assumption].
      split; [| exists (Z.of_nat j); split; [lia | reflexivity]].
      assert (0 <= Z.of_nat j * step)%Z by (apply Z.mul_nonneg_nonneg; lia).
      lia.
    + intros [Hx [j [Hj ->]]]. exists (Z.to_nat j).
      rewrite Z2Nat.id by assumption. split; [| reflexivity].
      apply lt_ceilDiv_iff; [assumption | lia].
Qed.

Lemma range_ascending_witness :
  exists result,
    RangePipe.transform 9 1 (Some 10%Z) (Some 2%Z) = Some (Returns result)
    /\ result = arithmeticList 1 2 (Z.to_nat (ceilDiv (10 - 1) 2))
    /\ forall x, In x result
                 <-> (1 <= x < 10)%Z
                     /\ exists j, (0 <= j)%Z /\ x = (1 + j * 2)%Z.
Proof.
  apply (range_ascending 9 1 10 2);
    unfold safeInteger, MAX_SAFE_INTEGER; simpl; lia.
Defined.

(** For safe integers and a negative step, [range(start, stop, step)]
    returns [start, start + step, ...] down to the last such number above
    [stop]. *)
Theorem range_descending (fuel : nat) (start stop step : Z) :
  safeInteger start -> safeInteger stop -> safeInteger step ->
  (step < 0)%Z ->
  (Z.to_nat (start - stop) <= fuel)%nat ->
  exists result,
    RangePipe.transform fuel start (Some stop) (Some step)
    = Some (Returns result)
    /\ result = arithmeticList start step
                  (Z.to_nat (ceilDiv (start - stop) (- step)))
    /\ forall x, In x result
                 <-> (stop < x <= start)%Z
                     /\ exists j, (0 <= j)%Z /\ x = (start + j * step)%Z.
Proof.
  intros _ _ _ Hstep Hfuel. assert (0 < - step)%Z as Hneg by lia.
  eexists. split; [| split; [reflexivity |]].
  - unfold RangePipe.transform.
    destruct (Z.eqb_spec step 0); [lia |].
    destruct (Z.gtb_spec step 0); [lia |].
    rewrite countDown_arithmeticList by assumption. reflexivity.
  - intros x. rewrite In_arithmeticList. split.
    + intros [j [Hj ->]]. apply lt_ceilDiv_iff in Hj; [| assumption].
      split; [| exists (Z.of_nat j); split; [lia | reflexivity]].
      assert (0 <= Z.of_nat j * - step)%Z by (apply Z.mul_nonneg_nonneg; lia).
      lia.
    + intros [Hx [j [Hj ->]]]. exists (Z.to_nat j).
      rewrite Z2Nat.id by assumption. split; [| reflexivity].
      apply lt_ceilDiv_iff; [assumption | lia].
Qed.

Lemma range_descending_witness :
  exists result,
    RangePipe.transform 9 10 (Some 1%Z) (Some (-2)%Z) = Some (Returns result)
    /\ result = arithmeticList 10 (-2) (Z.to_nat (ceilDiv (10 - 1) (- -2)))
    /\ forall x, In x result
                 <-> (1 < x <= 10)%Z
                     /\ exists j, (0 <= j)%Z /\ x = (10 + j * -2)%Z.
Proof.
  apply (range_descending 9 10 1 (-2));
    unfold safeInteger, MAX_SAFE_INTEGER; simpl; lia.
Defined.

(** The examples of the pipe's documentation. *)
Example range_examples :
  RangePipe.transform 0 5 None None = Some (Returns [0; 1; 2; 3; 4]%Z)
  /\ RangePipe.transform 3 2 (Some 5%Z) None = Some (Returns [2; 3; 4]%Z)
  /\ RangePipe.transform 9 1 (Some 10%Z) (Some 2%Z)
     = Some (Returns [1; 3; 5; 7; 9]%Z)
  /\ RangePipe.transform 9 10 (Some 1%Z) (Some (-2)%Z)
     = Some (Returns [10; 8; 6; 4; 2]%Z).
Proof. repeat split. Qed.

Lemma arithmeticList_from_zero (count : nat) :
  arithmeticList 0 1 count = map Z.of_nat (seq 0 count).
Proof. unfold arithmeticList. apply map_ext. intros j. lia. Qed.

(** [range(stop)], the case written with [Array.from], returns what the
    general case returns for [range(0, stop, 1)]: the numbers from [0] to
    [stop - 1], none when [stop] is not positive. *)
Theorem range_one_argument (fuel fuel' : nat) (stop : Z) (step : option Z) :
  (Z.to_nat stop <= fuel')%nat ->
  RangePipe.transform fuel stop None step
  = RangePipe.transform fuel' 0 (Some stop) (Some 1%Z)
  /\ RangePipe.transform fuel stop None step
     = Some (Returns (map Z.of_nat (seq 0 (Z.to_nat stop)))).
Proof.
  intros Hfuel. split; [| reflexivity].
  unfold RangePipe.transform. simpl.
  rewrite countUp_arithmeticList by lia. simpl.
  unfold ceilDiv. replace (stop - 0 + 1 - 1)%Z with stop by lia.
  rewrite Z.div_1_r, arithmeticList_from_zero. reflexivity.
Qed.

Lemma range_one_argument_witness :
  RangePipe.transform 0 5 None None
  = RangePipe.transform 5 0 (Some 5%Z) (Some 1%Z)
  /\ RangePipe.transform 0 5 None None
     = Some (Returns (map Z.of_nat (seq 0 (Z.to_nat 5)))).
Proof. apply (range_one_argument 0 5 5 None). simpl. lia. Defined.

(** [transform] ends on safe integers: it throws exactly when a [stop] is
    given and the step is zero, and returns an array otherwise; a bound of
    [|stop - start|] iterations is enough for the loop. *)
Theorem range_ends (startOrStop : Z) (stop step : option Z) :
  safeInteger startOrStop ->
  (forall n, stop = Some n -> safeInteger n) ->
  (forall n, step = Some n -> safeInteger n) ->
  exists outcome,
    (forall fuel,
       (match stop with
        | Some stop => Z.to_nat (Z.abs (stop - startOrStop))
        | None => 0
        end <= fuel)%nat ->
       RangePipe.transform fuel startOrStop stop step = Some outcome)
    /\ ((exists message, outcome = ThrowsError message)
        <-> stop <> None /\ step = Some 0%Z).
Proof.
  intros _ _ _. destruct stop as [stop |].
  - set (s := match step with Some s => s | None => 1%Z end).
    destruct (Z.lt_trichotomy s 0) as [Hs | [Hs | Hs]].
    + eexists. split.
      * intros fuel Hfuel. unfold RangePipe.transform. fold s.
        destruct (Z.eqb_spec s 0); [lia |].
        destruct (Z.gtb_spec s 0); [lia |].
        rewrite countDown_arithmeticList by lia. reflexivity.
      * split; [intros [m H]; discriminate |].
        intros [_ ->]. simpl in s. unfold s in Hs. lia.
    + eexists. split.
      * intros fuel _. unfold RangePipe.transform. fold s.
        rewrite Hs. reflexivity.
      * split; [intros _ | intros _; eexists; reflexivity].
        split; [discriminate |].
        destruct step as [z |]; simpl in s; unfold s in Hs;
          [now subst | discriminate].
    + eexists. split.
      * intros fuel Hfuel. unfold RangePipe.transform. fold s.
        destruct (Z.eqb_spec s 0); [lia |].
        destruct (Z.gtb_spec s 0); [| lia].
        rewrite countUp_arithmeticList by lia. reflexivity.
      * split; [intros [m H]; discriminate |].
        intros [_ ->]. simpl in s. unfold s in Hs. lia.
  - eexists. split; [intros fuel _; reflexivity |].
    split; [intros [m H]; discriminate | intros [H _]; congruence].
Qed.

Lemma range_ends_witness :
  exists outcome,
    (forall fuel,
       (Z.to_nat (Z.abs (10 - 1)) <= fuel)%nat ->
       RangePipe.transform fuel 1 (Some 10%Z) (Some 2%Z) = Some outcome)
    /\ ((exists message, outcome = ThrowsError message)
        <-> Some 10%Z <> None /\ Some 2%Z = Some 0%Z).
Proof.
  apply (range_ends 1 (Some 10%Z) (Some 2%Z)).
  - unfold safeInteger, MAX_SAFE_INTEGER. lia.
  - intros n [= <-]. unfold safeInteger, MAX_SAFE_INTEGER. lia.
  - intros n [= <-]. unfold safeInteger, MAX_SAFE_INTEGER. lia.
Defined.


(* ------------------------------------------------------------------ *)
(** ** The two mockMore pipes                                          *)
(* ------------------------------------------------------------------ *)

(** On a non-empty input the earlier pipe returns what the later one
    returns with its default target size, whatever the fields and the
    label; on the empty input the two agree when no field is given. *)
Theorem MockMorePipe0_agrees (fuel : nat) (value : list Value)
    (field : option string) (fieldsOrField : FieldsOrField)
    (mockLabel : string) (next : nat) :
  (value <> [] ->
   MockMorePipe0.transform fuel value field
   = option_map fst (transform fuel value fieldsOrField defaultTargetSize
                       mockLabel next))
  /\ MockMorePipe0.transform fuel [] None
     = option_map fst (transform fuel [] FieldsOmitted defaultTargetSize
                         mockLabel next).
Proof.
  split.
  - intros Hne. unfold MockMorePipe0.transform, transform,
      MockMorePipe0.TARGET_SIZE, defaultTargetSize.
    destruct (Z.eqb_spec (Z.of_nat (List.length value)) 0) as [E | _].
    { destruct value; [congruence | simpl in E; lia]. }
    destruct (Z.of_nat (List.length value) <? 100)%Z; [| reflexivity].
    destruct (growLoop fuel value 100 value); reflexivity.
  - vm_compute. reflexivity.
Qed.

(** With a field the earlier pipe writes the string 'dummy' where the
    later one puts a proxy. *)
Example MockMorePipe0_dummy :
  MockMorePipe0.transform 0 [] (Some "name"%string)
  = Some (Fresh (map (fun i => VObject [("id"%string, VNumber (Z.of_nat i));
                                       ("name"%string, VString "dummy")])
                   (seq 0 100))).
Proof. vm_compute. reflexivity. Qed.

(* ------------------------------------------------------------------ *)
(** ** numberValidator                                                 *)
(* ------------------------------------------------------------------ *)

Lemma SFcompare_antisym (a b : spec_float) :
  SFcompare b a = option_map CompOpp (SFcompare a b).
Proof.
  destruct a as [sa | sa | | sa ma ea], b as [sb | sb | | sb mb eb]; simpl;
    try reflexivity;
    try (destruct sa; reflexivity); try (destruct sb; reflexivity);
    try (destruct sa, sb; reflexivity).
  change (PosDef.Pos.compare_cont Eq ma mb) with (Pos.compare ma mb).
  change (PosDef.Pos.compare_cont Eq mb ma) with (Pos.compare mb ma).
  rewrite (Z.compare_antisym ea eb), (Pos.compare_antisym ma mb).
  destruct sa, sb; simpl; try reflexivity;
    destruct (Z.compare ea eb); simpl; try reflexivity;
    destruct (Pos.compare ma mb); reflexivity.
Qed.

Lemma SFcompare_None (a b : spec_float) :
  SFcompare a b = None <-> a = S754_nan \/ b = S754_nan.
Proof.
  destruct a, b; simpl; split; intros H; try discriminate; try tauto;
    destruct H; discriminate.
Qed.

(** The five tests of the validator read off one comparison of the value
    with the limit. *)
Lemma satisfies_compare (op : Operator) (value limit : float) :
  satisfies op value limit
  = match SFcompare (Prim2SF value) (Prim2SF limit), op with
    | Some Gt, (op_gt | op_ge) => true
    | Some Lt, (op_lt | op_le) => true
    | Some Eq, (op_ge | op_le | op_eq) => true
    | _, _ => false
    end.
Proof.
  destruct op; simpl;
    rewrite ?ltb_spec, ?leb_spec, ?eqb_spec;
    unfold SFltb, SFleb, SFeqb;
    rewrite ?(SFcompare_antisym (Prim2SF value) (Prim2SF limit));
    destruct (SFcompare (Prim2SF value) (Prim2SF limit)) as [[] |];
    reflexivity.
Qed.

Lemma numberValidator_valid_iff (limit : float) (op : Operator) (value : float) :
  numberValidator limit op (NonNull value) = None
  <-> satisfies op value limit = true.
Proof.
  unfold numberValidator. destruct (satisfies op value limit);
    split; congruence.
Qed.

(** The operators fit together: a value passes 'ge' exactly when it passes
    'gt' or 'eq', and 'le' exactly when it passes 'lt' or 'eq'; and when
    neither the value nor the limit is [NaN], it passes 'gt' exactly when
    it fails 'le', 'lt' exactly when it fails 'ge', and it passes one of
    'lt', 'eq' and 'gt'. *)
Theorem numberValidator_operators (limit value : float) :
  let valid op := numberValidator limit op (NonNull value) = None in
  (valid op_ge <-> valid op_gt \/ valid op_eq)
  /\ (valid op_le <-> valid op_lt \/ valid op_eq)
  /\ (is_nan value = false -> is_nan limit = false ->
      (valid op_gt <-> ~ valid op_le)
      /\ (valid op_lt <-> ~ valid op_ge)
      /\ (valid op_lt \/ valid op_eq \/ valid op_gt)).
Proof.
  intros valid. unfold valid. rewrite !numberValidator_valid_iff.
  rewrite !satisfies_compare.
  destruct (SFcompare (Prim2SF value) (Prim2SF limit)) as [[] |] eqn:E.
  all: repeat split; try tauto; try discriminate;
    try (intros [H | H]; discriminate).
  all: exfalso; apply SFcompare_None in E as [E | E];
    apply is_nan_spec in E; congruence.
Qed.

(** A value or a limit that is [NaN] fails under every operator. *)
Theorem numberValidator_NaN (limit value : float) (op : Operator) :
  is_nan value = true \/ is_nan limit = true ->
  numberValidator limit op (NonNull value)
  = Some (numberValidatorError op limit value).
Proof.
  intros H. unfold numberValidator. rewrite satisfies_compare.
  assert (SFcompare (Prim2SF value) (Prim2SF limit) = None) as ->.
  { apply SFcompare_None. rewrite <- !is_nan_spec. exact H. }
  reflexivity.
Qed.

Lemma numberValidator_NaN_witness :
  numberValidator 5 op_le (NonNull nan)
  = Some (numberValidatorError op_le 5 nan).
Proof. apply (numberValidator_NaN 5 nan op_le). left. reflexivity. Defined.

(** The examples of the validator's documentation, and a missing value. *)
Example numberValidator_examples :
  numberValidator 5 op_gt (NonNull 10%float) = None
  /\ numberValidator 5 op_gt (NonNull 3%float)
     = Some (numberValidatorError op_gt 5 3)
  /\ numberValidator 5 op_gt JsNull = Some nullInput
  /\ numberValidator 5 op_eq JsUndefined = Some nullInput.
Proof. repeat split. Qed.

(* ------------------------------------------------------------------ *)
(** ** The pureClick directive                                         *)
(* ------------------------------------------------------------------ *)

Section PureClickFacts.

Import PureClickDirective.

Lemma run_app (events events' : list HostEvent) :
  forall s,
    run s (events ++ events')
    = (fst (run s events) ++ fst (run (snd (run s events)) events'),
       snd (run (snd (run s events)) events')).
Proof.
  induction events as [| [e | e | e] rest IH]; intros s; simpl.
  - now destruct (run s events').
  - apply IH.
  - apply IH.
  - rewrite IH. destruct (run s rest) as [emitted final]. simpl.
    now rewrite app_assoc.
Qed.

Lemma run_threshold (events : list HostEvent) :
  forall s, threshold (snd (run s events)) = threshold s.
Proof.
  induction events as [| [e | e | e] rest IH]; intros s; simpl.
  - reflexivity.
  - now rewrite IH.
  - rewrite IH. unfold onPorinterMove.
    destruct (moved s); [reflexivity |].
    now destruct (beyond (threshold s) (startX s) (startY s) e).
  - specialize (IH s). now destruct (run s rest).
Qed.

(** Moves emit nothing and change [moved] only: it is set afterwards when
    it was set before or one of the moves went beyond the threshold. *)
Lemma run_moves (moves : list PointerEvent) :
  forall s,
    run s (map pointermove moves)
    = ([], {| threshold := threshold s;
              startX := startX s;
              startY := startY s;
              moved := moved s
                       || existsb (beyond (threshold s) (startX s) (startY s))
                            moves |}).
Proof.
  induction moves as [| m rest IH]; intros s; simpl.
  - rewrite orb_false_r. now destruct s.
  - rewrite IH. unfold onPorinterMove.
    destruct (moved s) eqn:Hm; simpl; [now rewrite Hm |].
    destruct (beyond (threshold s) (startX s) (startY s) m); simpl;
      [reflexivity | now rewrite Hm].
Qed.

End PureClickFacts.

(** A gesture: pointer down, any moves, pointer up.  The up event is
    emitted through [pureClick] exactly when no move was farther than the
    threshold from the down position along x or along y, whatever happened
    before the gesture. *)
Theorem pureClick_gesture (s : PureClickDirective.State)
    (down up : PureClickDirective.PointerEvent)
    (moves : list PureClickDirective.PointerEvent) :
  fst (PureClickDirective.run s
         (PureClickDirective.pointerdown down
          :: map PureClickDirective.pointermove moves
             ++ [PureClickDirective.pointerup up]))
  = if existsb (PureClickDirective.beyond (PureClickDirective.threshold s)
                  (PureClickDirective.clientX down)
                  (PureClickDirective.clientY down)) moves
    then [] else [up].
Proof.
  simpl. rewrite run_app, run_moves. simpl.
  unfold PureClickDirective.onPointerUp. simpl.
  now destruct (existsb _ moves).
Qed.

(** What the directive emits after a pointer down does not depend on the
    events before it: the events emitted on [before ++ pointerdown :: after]
    are those emitted on [before] followed by those a directive with the
    same threshold and no history emits on [pointerdown :: after]. *)
Theorem pureClick_pointerdown_resets (s : PureClickDirective.State)
    (before after : list PureClickDirective.HostEvent)
    (down : PureClickDirective.PointerEvent) :
  fst (PureClickDirective.run s
         (before ++ PureClickDirective.pointerdown down :: after))
  = fst (PureClickDirective.run s before)
    ++ fst (PureClickDirective.run
              {| PureClickDirective.threshold := PureClickDirective.threshold s;
                 PureClickDirective.startX := 0;
                 PureClickDirective.startY := 0;
                 PureClickDirective.moved := false |}
              (PureClickDirective.pointerdown down :: after)).
Proof.
  rewrite run_app. simpl. unfold PureClickDirective.onPointerDown. simpl.
  now rewrite run_threshold.
Qed.

(** A click in place, and a drag of five pixels. *)
Example pureClick_examples :
  fst (PureClickDirective.run PureClickDirective.initial
         [PureClickDirective.pointerdown
            {| PureClickDirective.clientX := 10; PureClickDirective.clientY := 10 |};
          PureClickDirective.pointermove
            {| PureClickDirective.clientX := 12; PureClickDirective.clientY := 14 |};
          PureClickDirective.pointerup
            {| PureClickDirective.clientX := 12; PureClickDirective.clientY := 14 |}])
  = [{| PureClickDirective.clientX := 12; PureClickDirective.clientY := 14 |}]
  /\ fst (PureClickDirective.run PureClickDirective.initial
            [PureClickDirective.pointerdown
               {| PureClickDirective.clientX := 10; PureClickDirective.clientY := 10 |};
             PureClickDirective.pointermove
               {| PureClickDirective.clientX := 15; PureClickDirective.clientY := 10 |};
             PureClickDirective.pointermove
               {| PureClickDirective.clientX := 10; PureClickDirective.clientY := 10 |};
             PureClickDirective.pointerup
               {| PureClickDirective.clientX := 10; PureClickDirective.clientY := 10 |}])
     = [].
Proof. split; vm_compute; reflexivity. Qed.

(* ------------------------------------------------------------------ *)
(** ** distinctUntilAnyKeyChanged                                      *)
(* ------------------------------------------------------------------ *)

Section DistinctFacts.

Context {A : Type}.
Variable comparator : A -> A -> bool.

Lemma distinctAfter_idempotent (source : list A) :
  forall previous,
    distinctAfter comparator previous (distinctAfter comparator previous source)
    = distinctAfter comparator previous source.
Proof.
  induction source as [| value rest IH]; intros previous; simpl; [reflexivity |].
  destruct (comparator previous value) eqn:E; [apply IH |].
  simpl. rewrite E. now rewrite IH.
Qed.

Lemma distinctUntilChanged_idempotent (source : list A) :
  distinctUntilChanged comparator (distinctUntilChanged comparator source)
  = distinctUntilChanged comparator source.
Proof.
  destruct source as [| value rest]; simpl; [reflexivity |].
  now rewrite distinctAfter_idempotent.
Qed.

(** Two values passed on one after the other were not found equal. *)
Lemma distinctAfter_adjacent (source : list A) :
  forall previous i a b,
    nth_error (previous :: distinctAfter comparator previous source) i = Some a ->
    nth_error (previous :: distinctAfter comparator previous source) (S i)
    = Some b ->
    comparator a b = false.
Proof.
  induction source as [| value rest IH]; intros previous i a b Ha Hb.
  - destruct i; simpl in Hb; [discriminate | destruct i; discriminate].
  - simpl in Ha, Hb. destruct (comparator previous value) eqn:E.
    + now apply (IH previous i).
    + destruct i as [| i]; simpl in Ha, Hb.
      * congruence.
      * now apply (IH value i).
Qed.

(** When the comparator finds no two values of the source equal, nothing
    is dropped. *)
Lemma distinctAfter_all_differ (source : list A) :
  (forall a b, In b source -> comparator a b = false) ->
  forall previous, distinctAfter comparator previous source = source.
Proof.
  induction source as [| value rest IH]; intros H previous; simpl;
    [reflexivity |].
  rewrite H by now left. f_equal. apply IH. intros a b Hb. apply H. now right.
Qed.

End DistinctFacts.

Lemma forallb_false_exists {A : Type} (f : A -> bool) (l : list A) :
  forallb f l = false -> exists a, In a l /\ f a = false.
Proof.
  induction l as [| a l IH]; simpl; [discriminate |].
  destruct (f a) eqn:E; simpl.
  - intros H. destruct (IH H) as [x [Hx Hf]]. exists x. tauto.
  - intros _. exists a. tauto.
Qed.

(** The operator applied to its own output changes nothing. *)
Theorem distinctUntilAnyKeyChanged_idempotent (keys : list string)
    (source : list StreamItem) :
  distinctUntilAnyKeyChanged keys (distinctUntilAnyKeyChanged keys source)
  = distinctUntilAnyKeyChanged keys source.
Proof. apply distinctUntilChanged_idempotent. Qed.

(** Two items emitted one after the other are never equal for the
    comparator; when both are objects and keys were given, they differ
    under [===] on one of the keys. *)
Theorem distinctUntilAnyKeyChanged_adjacent (keys : list string)
    (source : list StreamItem) (i : nat) (a b : StreamItem) :
  nth_error (distinctUntilAnyKeyChanged keys source) i = Some a ->
  nth_error (distinctUntilAnyKeyChanged keys source) (S i) = Some b ->
  sameOnKeys keys a b = false
  /\ forall p c, a = NonNull p -> b = NonNull c -> keys <> [] ->
       exists key, In key keys
                   /\ fieldStrictEquals (readField p key) (readField c key)
                      = false.
Proof.
  intros Ha Hb.
  assert (sameOnKeys keys a b = false) as Hab.
  { destruct source as [| value rest]; [destruct i; discriminate |].
    now apply (distinctAfter_adjacent (sameOnKeys keys) rest value i). }
  split; [exact Hab |].
  intros p c -> -> Hkeys. simpl in Hab.
  destruct keys as [| k ks]; [congruence |].
  replace (0 <? List.length (k :: ks))%nat with true in Hab by reflexivity.
  now apply forallb_false_exists in Hab.
Qed.

Lemma distinctUntilAnyKeyChanged_adjacent_witness :
  sameOnKeys ["a"%string]
    (NonNull [("a"%string, FNumber 1); ("b"%string, FNumber 1)])
    (NonNull [("a"%string, FNumber 2); ("b"%string, FNumber 3)]) = false
  /\ forall p c,
       NonNull [("a"%string, FNumber 1); ("b"%string, FNumber 1)] = NonNull p ->
       NonNull [("a"%string, FNumber 2); ("b"%string, FNumber 3)] = NonNull c ->
       ["a"%string] <> [] ->
       exists key, In key ["a"%string]
                   /\ fieldStrictEquals (readField p key) (readField c key)
                      = false.
Proof.
  apply (distinctUntilAnyKeyChanged_adjacent ["a"%string]
           [NonNull [("a"%string, FNumber 1); ("b"%string, FNumber 1)];
            NonNull [("a"%string, FNumber 1); ("b"%string, FNumber 2)];
            NonNull [("a"%string, FNumber 2); ("b"%string, FNumber 3)]] 0);
    reflexivity.
Defined.

Lemma eqb_NaN_r (x y : float) : is_nan y = true -> PrimFloat.eqb x y = false.
Proof.
  intros H. apply is_nan_spec in H. rewrite eqb_spec, H.
  unfold SFeqb. now destruct (Prim2SF x).
Qed.

(** [NaN] is never equal to itself: when every item is an object that
    holds [NaN] under one of the given keys, no item is dropped, however
    alike the items are. *)
Theorem distinctUntilAnyKeyChanged_NaN (keys : list string)
    (source : list StreamItem) :
  (forall item, In item source ->
     exists fields key x,
       item = NonNull fields /\ In key keys
       /\ readField fields key = FNumber x /\ is_nan x = true) ->
  distinctUntilAnyKeyChanged keys source = source.
Proof.
  intros H. unfold distinctUntilAnyKeyChanged.
  destruct source as [| value rest]; simpl; [reflexivity |].
  f_equal. apply distinctAfter_all_differ.
  intros a b Hb.
  destruct (H b (or_intror Hb)) as [fields [key [x [-> [Hkey [Hx Hnan]]]]]].
  destruct a as [| | p]; try reflexivity. simpl.
  destruct keys as [| k ks]; [destruct Hkey |].
  replace (0 <? List.length (k :: ks))%nat with true by reflexivity.
  destruct (forallb _ (k :: ks)) eqn:E; [| reflexivity].
  rewrite forallb_forall in E. specialize (E key Hkey).
  rewrite Hx in E. destruct (readField p key); try discriminate.
  simpl in E. rewrite eqb_NaN_r in E by assumption. discriminate.
Qed.

Lemma distinctUntilAnyKeyChanged_NaN_witness :
  distinctUntilAnyKeyChanged ["a"%string]
    [NonNull [("a"%string, FNumber nan)]; NonNull [("a"%string, FNumber nan)]]
  = [NonNull [("a"%string, FNumber nan)]; NonNull [("a"%string, FNumber nan)]].
Proof.
  apply (distinctUntilAnyKeyChanged_NaN ["a"%string]
           [NonNull [("a"%string, FNumber nan)];
            NonNull [("a"%string, FNumber nan)]]).
  intros item [<- | [<- | []]];
    exists [("a"%string, FNumber nan)], "a"%string, nan;
    repeat split; simpl; tauto.
Defined.

Lemma distinctAfter_map {A B : Type} (f : A -> B) (cmp : A -> A -> bool)
    (cmp' : B -> B -> bool) (source : list A) :
  (forall a b, cmp' (f a) (f b) = cmp a b) ->
  forall previous,
    map f (distinctAfter cmp previous source)
    = distinctAfter cmp' (f previous) (map f source).
Proof.
  intros H. induction source as [| value rest IH]; intros previous; simpl;
    [reflexivity |].
  rewrite H. destruct (cmp previous value); simpl; now rewrite IH.
Qed.

Lemma readField_onlyKeys (keys : list string)
    (fields : list (string * FieldValue)) (key : string) :
  In key keys ->
  readField (map (fun k => (k, readField fields k)) keys) key
  = readField fields key.
Proof.
  induction keys as [| k ks IH]; intros Hin; [destruct Hin |]. simpl.
  destruct (String.eqb_spec k key) as [-> | Hne]; [reflexivity |].
  apply IH. destruct Hin; [congruence | assumption].
Qed.

Lemma forallb_ext_In {A : Type} (f g : A -> bool) (l : list A) :
  (forall a, In a l -> f a = g a) -> forallb f l = forallb g l.
Proof.
  induction l as [| a l IH]; intros H; simpl; [reflexivity |].
  rewrite (H a) by now left.
  rewrite IH; [reflexivity |]. intros b Hb. apply H. now right.
Qed.

Lemma sameOnKeys_onlyKeys (keys : list string) (a b : StreamItem) :
  keys <> [] ->
  sameOnKeys keys (onlyKeys keys a) (onlyKeys keys b) = sameOnKeys keys a b.
Proof.
  intros Hkeys. destruct a as [| | p], b as [| | c]; try reflexivity. simpl.
  destruct keys as [| k ks]; [congruence |].
  replace (0 <? List.length (k :: ks))%nat with true by reflexivity.
  apply forallb_ext_In. intros key Hkey. now rewrite !readField_onlyKeys.
Qed.

(** With keys given, only the fields they name count: forgetting the other
    fields of the items before the operator or after it gives the same
    stream. *)
Theorem distinctUntilAnyKeyChanged_other_fields (keys : list string)
    (source : list StreamItem) :
  keys <> [] ->
  map (onlyKeys keys) (distinctUntilAnyKeyChanged keys source)
  = distinctUntilAnyKeyChanged keys (map (onlyKeys keys) source).
Proof.
  intros Hkeys. unfold distinctUntilAnyKeyChanged.
  destruct source as [| value rest]; simpl; [reflexivity |].
  f_equal. apply distinctAfter_map. intros a b.
  now apply sameOnKeys_onlyKeys.
Qed.

Lemma distinctUntilAnyKeyChanged_other_fields_witness :
  map (onlyKeys ["a"%string])
    (distinctUntilAnyKeyChanged ["a"%string]
       [NonNull [("a"%string, FNumber 1); ("b"%string, FNumber 1)];
        NonNull [("a"%string, FNumber 1); ("b"%string, FNumber 2)];
        JsNull;
        NonNull [("b"%string, FNumber 2)]])
  = distinctUntilAnyKeyChanged ["a"%string]
      (map (onlyKeys ["a"%string])
         [NonNull [("a"%string, FNumber 1); ("b"%string, FNumber 1)];
          NonNull [("a"%string, FNumber 1); ("b"%string, FNumber 2)];
          JsNull;
          NonNull [("b"%string, FNumber 2)]]).
Proof.
  apply (distinctUntilAnyKeyChanged_other_fields ["a"%string]). discriminate.
Defined.

(** The example of the operator's documentation, with keys a and b: a
    change of c alone is not emitted. *)
Example distinctUntilAnyKeyChanged_example :
  distinctUntilAnyKeyChanged ["a"%string; "b"%string]
    [NonNull [("a"%string, FNumber 1); ("b"%string, FNumber 1);
              ("c"%string, FNumber 1)];
     NonNull [("a"%string, FNumber 1); ("b"%string, FNumber 1);
              ("c"%string, FNumber 2)];
     NonNull [("a"%string, FNumber 1); ("b"%string, FNumber 2);
              ("c"%string, FNumber 2)]]
  = [NonNull [("a"%string, FNumber 1); ("b"%string, FNumber 1);
              ("c"%string, FNumber 1)];
     NonNull [("a"%string, FNumber 1); ("b"%string, FNumber 2);
              ("c"%string, FNumber 2)]].
Proof. vm_compute. reflexivity. Qed.

(* ------------------------------------------------------------------ *)
(** ** iifChain                                                        *)
(* ------------------------------------------------------------------ *)

Section IifChainFacts.

Import IifChainBuilder.

Context {T Obs Env : Type}.
Variable ofValue : T -> Obs.
Variable isNull : T -> bool.

Lemma firstMatch_app (env : Env) (cs cs' : list (Case T Obs Env)) :
  firstMatch env (cs ++ cs')
  = match firstMatch env cs with
    | Some r => Some r
    | None => firstMatch env cs'
    end.
Proof.
  induction cs as [| c rest IH]; simpl; [reflexivity |].
  now destruct (condition c env).
Qed.

(** Chained calls only add cases at the end. *)
Lemma cases_chain (calls : list (Call T Obs Env)) :
  forall b, exists added, cases (chain isNull b calls) = cases b ++ added.
Proof.
  unfold chain. induction calls as [| c rest IH]; intros b; simpl.
  - exists []. now rewrite app_nil_r.
  - destruct (IH (call isNull b c)) as [added ->].
    destruct c as [cond r | r]; simpl.
    + eexists. now rewrite <- app_assoc.
    + now exists added.
Qed.

(** Chained cases whose conditions do not hold leave the first match and
    the else case as they are. *)
Lemma chain_no_case_holds (env : Env) (calls : list (Call T Obs Env)) :
  forallb isCallCase calls = true ->
  noCaseHolds env calls = true ->
  forall b,
    firstMatch env (cases (chain isNull b calls)) = firstMatch env (cases b)
    /\ elseCase (chain isNull b calls) = elseCase b.
Proof.
  unfold chain.
  induction calls as [| c rest IH]; intros Hcases Hno b; simpl;
    [split; reflexivity |].
  simpl in Hcases, Hno.
  apply andb_true_iff in Hcases as [Hc Hcases].
  apply andb_true_iff in Hno as [Hn Hno].
  destruct (IH Hcases Hno (call isNull b c)) as [-> ->].
  destruct c as [cond r | r]; [| discriminate]. simpl.
  rewrite firstMatch_app. simpl.
  apply negb_true_iff in Hn. rewrite Hn.
  split; [now destruct (firstMatch env (cases b)) | reflexivity].
Qed.

End IifChainFacts.

(** The first case that holds decides: once a case is added whose
    condition holds, and no case before it holds, the subscription gets
    the result of that case, whatever is chained after it. *)
Theorem iifChain_first_match {T Obs Env : Type} (ofValue : T -> Obs)
    (isNull : T -> bool) (b : IifChainBuilder.Builder T Obs Env)
    (condition : Env -> bool) (result : IifChainBuilder.Result T Obs)
    (more : list (IifChainBuilder.Call T Obs Env)) (env : Env) :
  IifChainBuilder.firstMatch env (IifChainBuilder.cases b) = None ->
  condition env = true ->
  IifChainBuilder.build ofValue
    (IifChainBuilder.chain isNull (IifChainBuilder.case b condition result) more)
    env
  = Returns (IifChainBuilder.toObservable ofValue result).
Proof.
  intros Hnone Hcond. unfold IifChainBuilder.build.
  destruct (cases_chain isNull more (IifChainBuilder.case b condition result))
    as [added ->].
  simpl. rewrite !firstMatch_app, Hnone. simpl. now rewrite Hcond.
Qed.

(** The else case applies when no condition holds, wherever the cases are
    chained: before [else] or after it.  A [null] given to [else] counts as
    no else case, and the subscription throws. *)
Theorem iifChain_else {T Obs Env : Type} (ofValue : T -> Obs)
    (isNull : T -> bool) (b : IifChainBuilder.Builder T Obs Env)
    (result : IifChainBuilder.Result T Obs)
    (more : list (IifChainBuilder.Call T Obs Env)) (env : Env) :
  IifChainBuilder.firstMatch env (IifChainBuilder.cases b) = None ->
  forallb IifChainBuilder.isCallCase more = true ->
  IifChainBuilder.noCaseHolds env more = true ->
  IifChainBuilder.build ofValue
    (IifChainBuilder.chain isNull (IifChainBuilder.else_ isNull b result) more)
    env
  = match result with
    | IifChainBuilder.Plain v =>
        if isNull v
        then ThrowsError "No condition matched and no else case provided."
        else Returns (ofValue v)
    | IifChainBuilder.Stream observable => Returns observable
    end.
Proof.
  intros Hnone Hcases Hno. unfold IifChainBuilder.build.
  destruct (chain_no_case_holds isNull env more Hcases Hno
              (IifChainBuilder.else_ isNull b result)) as [-> ->].
  simpl. rewrite Hnone.
  destruct result as [v | o]; [| reflexivity].
  now destruct (isNull v).
Qed.

(** Without any call of [else], a subscription for which no condition
    holds throws. *)
Theorem iifChain_no_else {T Obs Env : Type} (ofValue : T -> Obs)
    (isNull : T -> bool) (calls : list (IifChainBuilder.Call T Obs Env))
    (env : Env) :
  forallb IifChainBuilder.isCallCase calls = true ->
  IifChainBuilder.noCaseHolds env calls = true ->
  IifChainBuilder.build ofValue
    (IifChainBuilder.chain isNull IifChainBuilder.iifChain calls) env
  = ThrowsError "No condition matched and no else case provided.".
Proof.
  intros Hcases Hno. unfold IifChainBuilder.build.
  destruct (chain_no_case_holds isNull env calls Hcases Hno
              IifChainBuilder.iifChain) as [-> ->].
  reflexivity.
Qed.

Lemma iifChain_first_match_witness :
  IifChainBuilder.build (fun v : string => [v])
    (IifChainBuilder.chain (fun _ => false)
       (IifChainBuilder.case IifChainBuilder.iifChain
          (fun age => 60 <? age) (IifChainBuilder.Plain "Senior"%string))
       [IifChainBuilder.CallCase (fun age => 18 <=? age)
          (IifChainBuilder.Plain "Adult"%string);
        IifChainBuilder.CallElse (IifChainBuilder.Plain "Minor"%string)])
    70
  = Returns (IifChainBuilder.toObservable (fun v : string => [v])
               (IifChainBuilder.Plain "Senior"%string)).
Proof.
  apply (iifChain_first_match (fun v : string => [v]) (fun _ => false)
           IifChainBuilder.iifChain (fun age => 60 <? age)
           (IifChainBuilder.Plain "Senior"%string)); reflexivity.
Defined.

Lemma iifChain_else_witness :
  IifChainBuilder.build (fun v : string => [v])
    (IifChainBuilder.chain (fun _ => false)
       (IifChainBuilder.else_ (fun _ => false) IifChainBuilder.iifChain
          (IifChainBuilder.Plain "Minor"%string))
       [IifChainBuilder.CallCase (fun age => 60 <? age)
          (IifChainBuilder.Plain "Senior"%string);
        IifChainBuilder.CallCase (fun age => 18 <=? age)
          (IifChainBuilder.Stream ["Adult"%string])])
    12
  = Returns ["Minor"%string].
Proof.
  apply (iifChain_else (fun v : string => [v]) (fun _ => false)
           IifChainBuilder.iifChain (IifChainBuilder.Plain "Minor"%string));
    reflexivity.
Defined.

Lemma iifChain_no_else_witness :
  IifChainBuilder.build (fun v : string => [v])
    (IifChainBuilder.chain (fun _ => false) IifChainBuilder.iifChain
       [IifChainBuilder.CallCase (fun age => 60 <? age)
          (IifChainBuilder.Plain "Senior"%string);
        IifChainBuilder.CallCase (fun age => 18 <=? age)
          (IifChainBuilder.Plain "Adult"%string)])
    12
  = ThrowsError "No condition matched and no else case provided.".
Proof.
  apply (iifChain_no_else (fun v : string => [v]) (fun _ => false));
    reflexivity.
Defined.

(* ------------------------------------------------------------------ *)
(** ** deepUpdate                                                      *)
(* ------------------------------------------------------------------ *)

Lemma merge_object (originalObj : Json) (entries : list (string * Json)) :
  merge originalObj (JObject entries)
  = JObject (mergeEntries entries (ownEntries originalObj)).
Proof. reflexivity. Qed.

Lemma merge_array (originalObj : Json) (elems : list Json) :
  merge originalObj (JArray elems)
  = JObject (mergeEntries (indexedFrom 0 elems) (ownEntries originalObj)).
Proof.
  simpl. f_equal. generalize (ownEntries originalObj). generalize 0%nat.
  induction elems as [| patchValue rest IH]; intros index updatedObj;
    [reflexivity |].
  simpl. now rewrite IH.
Qed.

Lemma lookupEntry_set_same (props : list (string * Json)) (key : string)
    (v : Json) :
  lookupEntry (setEntry props key v) key = Some v.
Proof.
  induction props as [| [k x] rest IH]; simpl.
  - now rewrite String.eqb_refl.
  - destruct (String.eqb k key) eqn:E; simpl; rewrite E; [reflexivity | exact IH].
Qed.

Lemma lookupEntry_set_other (props : list (string * Json)) (key other : string)
    (v : Json) :
  other <> key ->
  lookupEntry (setEntry props key v) other = lookupEntry props other.
Proof.
  intros Hne. induction props as [| [k x] rest IH]; simpl.
  - destruct (String.eqb_spec key other); [congruence | reflexivity].
  - destruct (String.eqb_spec k key) as [-> | Hk]; simpl.
    + destruct (String.eqb_spec key other); [congruence | reflexivity].
    + destruct (String.eqb_spec k other); [reflexivity | exact IH].
Qed.

Lemma setEntry_same (props : list (string * Json)) (key : string) (v : Json) :
  lookupEntry props key = Some v -> setEntry props key v = props.
Proof.
  induction props as [| [k x] rest IH]; simpl; [discriminate |].
  destruct (String.eqb_spec k key) as [-> | Hk].
  - intros [= ->]. reflexivity.
  - intros H. now rewrite IH.
Qed.

Lemma lookupEntry_updateEntry_other (updatedObj : list (string * Json))
    (key other : string) (patchValue : Json) :
  other <> key ->
  lookupEntry (updateEntry updatedObj key patchValue) other
  = lookupEntry updatedObj other.
Proof.
  intros Hne. unfold updateEntry.
  destruct (isObjectType patchValue); now apply lookupEntry_set_other.
Qed.

Lemma distinctKeys_NoDup (keys : list string) :
  distinctKeys keys = true <-> NoDup keys.
Proof.
  induction keys as [| k rest IH]; simpl.
  - split; [constructor | reflexivity].
  - rewrite andb_true_iff, negb_true_iff, IH. split.
    + intros [Hk Hrest]. constructor; [| assumption].
      intros Hin.
      assert (existsb (String.eqb k) rest = true)
        by (apply existsb_exists; exists k; split;
            [assumption | apply String.eqb_refl]).
      congruence.
    + intros H. inversion H as [| ? ? Hnotin Hnodup]; subst.
      split; [| assumption].
      destruct (existsb (String.eqb k) rest) eqn:E; [| reflexivity].
      apply existsb_exists in E as [x [Hx Hk]].
      apply String.eqb_eq in Hk. now subst.
Qed.

Lemma lookupEntry_not_In (props : list (string * Json)) (key : string) :
  ~ In key (map fst props) -> lookupEntry props key = None.
Proof.
  induction props as [| [k x] rest IH]; simpl; [reflexivity |].
  intros H. destruct (String.eqb_spec k key); [tauto |]. apply IH. tauto.
Qed.

Lemma lookupEntry_In (props : list (string * Json)) (key : string) (v : Json) :
  NoDup (map fst props) -> In (key, v) props -> lookupEntry props key = Some v.
Proof.
  induction props as [| [k x] rest IH]; simpl; [tauto |].
  intros Hnodup [[= -> ->] | Hin].
  - now rewrite String.eqb_refl.
  - inversion Hnodup as [| ? ? Hnotin Hrest]; subst.
    destruct (String.eqb_spec k key) as [-> | _]; [| now apply IH].
    exfalso. apply Hnotin. apply in_map_iff. now exists (key, v).
Qed.

(** The loop, key by key: a key of the patch ends with the patch value, or
    with the patch value merged into what was there when it is an object
    or an array; any other key ends as it started. *)
Lemma mergeEntries_lookup (entries : list (string * Json)) :
  NoDup (map fst entries) ->
  forall updatedObj key,
    lookupEntry (mergeEntries entries updatedObj) key
    = match lookupEntry entries key with
      | Some patchValue =>
          Some (if isObjectType patchValue
                then merge (getEntry updatedObj key) patchValue
                else patchValue)
      | None => lookupEntry updatedObj key
      end.
Proof.
  induction entries as [| [k pv] rest IH]; intros Hnodup updatedObj key;
    [reflexivity |].
  simpl in Hnodup. inversion Hnodup as [| ? ? Hnotin Hrest]; subst.
  simpl. rewrite (IH Hrest).
  destruct (String.eqb_spec k key) as [-> | Hne].
  - rewrite (lookupEntry_not_In rest key Hnotin).
    unfold updateEntry. destruct (isObjectType pv);
      apply lookupEntry_set_same.
  - unfold getEntry.
    rewrite !(lookupEntry_updateEntry_other updatedObj k key pv)
      by congruence.
    reflexivity.
Qed.

(** Key by key, for a patch object [{ k1: v1, ... }]: a key the patch does
    not have keeps the value of the original; a key whose patch value is a
    primitive gets that value; a key whose patch value is an object or an
    array gets [deepUpdate] of the original's value and the patch value. *)
Theorem deepUpdate_key_by_key (originalObj : Json)
    (entries : list (string * Json)) :
  NoDup (map fst entries) ->
  exists props,
    deepUpdate originalObj (JObject entries) = Normal (JObject props)
    /\ (forall key, ~ In key (map fst entries) ->
          lookupEntry props key = lookupEntry (ownEntries originalObj) key)
    /\ (forall key patchValue,
          In (key, patchValue) entries -> isObjectType patchValue = false ->
          lookupEntry props key = Some patchValue)
    /\ (forall key patchValue,
          In (key, patchValue) entries -> isObjectType patchValue = true ->
          exists merged,
            deepUpdate (getEntry (ownEntries originalObj) key) patchValue
            = Normal merged
            /\ lookupEntry props key = Some merged).
Proof.
  intros Hnodup. eexists. split; [reflexivity |].
  fold (mergeEntries entries (ownEntries originalObj)).
  repeat split.
  - intros key Hkey. rewrite mergeEntries_lookup by assumption.
    now rewrite lookupEntry_not_In.
  - intros key pv Hin Hprim. rewrite mergeEntries_lookup by assumption.
    rewrite (lookupEntry_In entries key pv Hnodup Hin). now rewrite Hprim.
  - intros key pv Hin Hobj. eexists. split.
    + destruct pv; try discriminate; reflexivity.
    + rewrite mergeEntries_lookup by assumption.
      rewrite (lookupEntry_In entries key pv Hnodup Hin). now rewrite Hobj.
Qed.

Lemma deepUpdate_key_by_key_witness :
  exists props,
    deepUpdate
      (JObject [("a"%string, JNumber 1);
                ("b"%string, JObject [("c"%string, JNumber 2)])])
      (JObject [("b"%string, JObject [("d"%string, JNumber 3)]);
                ("e"%string, JNull)])
    = Normal (JObject props)
    /\ (forall key,
          ~ In key (map fst [("b"%string, JObject [("d"%string, JNumber 3)]);
                             ("e"%string, JNull)]) ->
          lookupEntry props key
          = lookupEntry
              (ownEntries
                 (JObject [("a"%string, JNumber 1);
                           ("b"%string, JObject [("c"%string, JNumber 2)])]))
              key)
    /\ (forall key patchValue,
          In (key, patchValue)
            [("b"%string, JObject [("d"%string, JNumber 3)]);
             ("e"%string, JNull)] ->
          isObjectType patchValue = false ->
          lookupEntry props key = Some patchValue)
    /\ (forall key patchValue,
          In (key, patchValue)
            [("b"%string, JObject [("d"%string, JNumber 3)]);
             ("e"%string, JNull)] ->
          isObjectType patchValue = true ->
          exists merged,
            deepUpdate
              (getEntry
                 (ownEntries
                    (JObject [("a"%string, JNumber 1);
                              ("b"%string, JObject [("c"%string, JNumber 2)])]))
                 key) patchValue = Normal merged
            /\ lookupEntry props key = Some merged).
Proof.
  apply (deepUpdate_key_by_key
           (JObject [("a"%string, JNumber 1);
                     ("b"%string, JObject [("c"%string, JNumber 2)])])
           [("b"%string, JObject [("d"%string, JNumber 3)]);
            ("e"%string, JNull)]).
  repeat constructor; simpl; intuition discriminate.
Defined.

(** A nested merge, a replaced array, and the patch [null]. *)
Example deepUpdate_examples :
  deepUpdate
    (JObject [("a"%string, JNumber 1);
              ("b"%string, JObject [("c"%string, JNumber 2);
                                    ("d"%string, JNumber 3)])])
    (JObject [("b"%string, JObject [("c"%string, JNumber 9)])])
  = Normal (JObject [("a"%string, JNumber 1);
                     ("b"%string, JObject [("c"%string, JNumber 9);
                                           ("d"%string, JNumber 3)])])
  /\ deepUpdate
       (JObject [("tags"%string, JArray [JString "x"; JString "y"])])
       (JObject [("tags"%string, JArray [JString "z"])])
     = Normal (JObject [("tags"%string,
                         JObject [("0"%string, JString "z");
                                  ("1"%string, JString "y")])])
  /\ deepUpdate (JObject []) JNull = Throw TypeError.
Proof. repeat split. Qed.

Lemma indexKey_inj (i j : nat) : indexKey i = indexKey j -> i = j.
Proof.
  unfold indexKey. intros H.
  apply Unsigned.to_uint_inj.
  pose proof (NilEmpty.usu (Nat.to_uint i)) as Hi.
  pose proof (NilEmpty.usu (Nat.to_uint j)) as Hj.
  congruence.
Qed.

Lemma indexedFrom_keys (elems : list Json) :
  forall i key, In key (map fst (indexedFrom i elems)) ->
    exists j, (i <= j)%nat /\ key = indexKey j.
Proof.
  induction elems as [| e rest IH]; intros i key; simpl; [tauto |].
  intros [<- | H].
  - exists i. split; [lia | reflexivity].
  - destruct (IH (S i) key H) as [j [Hj ->]]. exists j. split; [lia | reflexivity].
Qed.

Lemma indexedFrom_NoDup (elems : list Json) :
  forall i, NoDup (map fst (indexedFrom i elems)).
Proof.
  induction elems as [| e rest IH]; intros i; simpl; constructor; [| apply IH].
  intros H. apply indexedFrom_keys in H as [j [Hj E]].
  apply indexKey_inj in E. lia.
Qed.

Lemma indexedFrom_values (elems : list Json) :
  forall i key v, In (key, v) (indexedFrom i elems) -> In v elems.
Proof.
  induction elems as [| e rest IH]; intros i key v; simpl; [tauto |].
  intros [[= _ ->] | H]; [now left | right; now apply (IH (S i) key)].
Qed.

Lemma wellFormed_object (props : list (string * Json)) :
  wellFormed (JObject props) = true ->
  NoDup (map fst props)
  /\ forall key v, In (key, v) props ->
       wellFormed v = true /\ (height v < height (JObject props))%nat.
Proof.
  simpl. intros H. apply andb_true_iff in H as [Hkeys Hall].
  split; [now apply distinctKeys_NoDup |].
  clear Hkeys. induction props as [| [k x] rest IH]; intros key v;
    [intros [] |].
  apply andb_true_iff in Hall as [Hx Hrest].
  intros [[= -> ->] | Hin].
  - split; [assumption | lia].
  - destruct (IH Hrest key v Hin) as [Hv Hh]. split; [assumption | lia].
Qed.

Lemma wellFormed_array (elems : list Json) :
  wellFormed (JArray elems) = true ->
  forall v, In v elems ->
    wellFormed v = true /\ (height v < height (JArray elems))%nat.
Proof.
  simpl. intros Hall.
  induction elems as [| x rest IH]; intros v; [intros [] |].
  apply andb_true_iff in Hall as [Hx Hrest].
  intros [-> | Hin].
  - split; [assumption | lia].
  - destruct (IH Hrest v Hin) as [Hv Hh]. split; [assumption | lia].
Qed.

Lemma mergeEntries_fixed (entries props : list (string * Json)) :
  (forall key pv, In (key, pv) entries -> updateEntry props key pv = props) ->
  mergeEntries entries props = props.
Proof.
  induction entries as [| [k pv] rest IH]; intros H; simpl; [reflexivity |].
  rewrite H by now left. apply IH. intros key pv' Hin. apply H. now right.
Qed.

(** Running the loop of a patch a second time changes nothing, when it
    changes nothing for the objects and arrays inside the patch. *)
Lemma mergeEntries_idempotent (entries updatedObj : list (string * Json)) :
  NoDup (map fst entries) ->
  (forall key pv, In (key, pv) entries -> isObjectType pv = true ->
     forall o, merge (merge o pv) pv = merge o pv) ->
  mergeEntries entries (mergeEntries entries updatedObj)
  = mergeEntries entries updatedObj.
Proof.
  intros Hnodup Hinner. apply mergeEntries_fixed.
  intros key pv Hin.
  assert (lookupEntry (mergeEntries entries updatedObj) key
          = Some (if isObjectType pv
                  then merge (getEntry updatedObj key) pv else pv)) as Hkey.
  { rewrite mergeEntries_lookup by assumption.
    now rewrite (lookupEntry_In entries key pv Hnodup Hin). }
  unfold updateEntry. unfold getEntry at 1. rewrite Hkey.
  destruct (isObjectType pv) eqn:Hobj.
  - rewrite (Hinner key pv Hin Hobj). now apply setEntry_same.
  - now apply setEntry_same.
Qed.

Lemma merge_idempotent (n : nat) :
  forall patchObj,
    (height patchObj <= n)%nat -> isObjectType patchObj = true ->
    wellFormed patchObj = true ->
    forall originalObj,
      merge (merge originalObj patchObj) patchObj = merge originalObj patchObj.
Proof.
  induction n as [| n IH]; intros patchObj Hh Hobj Hwf originalObj.
  - destruct patchObj; try discriminate; simpl in Hh; lia.
  - destruct patchObj as [| | | | | props | elems]; try discriminate.
    + destruct (wellFormed_object props Hwf) as [Hnodup Hin].
      rewrite !merge_object. simpl ownEntries. f_equal.
      apply mergeEntries_idempotent; [assumption |].
      intros key pv Hkey Hpv o. destruct (Hin key pv Hkey) as [Hv Hlt].
      apply IH; [lia | assumption | assumption].
    + pose proof (wellFormed_array elems Hwf) as Hin.
      rewrite !merge_array. simpl ownEntries. f_equal.
      apply mergeEntries_idempotent; [apply indexedFrom_NoDup |].
      intros key pv Hkey Hpv o. apply indexedFrom_values in Hkey.
      destruct (Hin pv Hkey) as [Hv Hlt].
      apply IH; [lia | assumption | assumption].
Qed.

(** Applying the same patch a second time changes nothing: for a patch
    that is an object or an array and holds no property twice,
    [deepUpdate(deepUpdate(o, patch), patch)] is [deepUpdate(o, patch)]. *)
Theorem deepUpdate_idempotent (originalObj patchObj updated : Json) :
  isObjectType patchObj = true ->
  wellFormed patchObj = true ->
  deepUpdate originalObj patchObj = Normal updated ->
  deepUpdate updated patchObj = Normal updated.
Proof.
  intros Hobj Hwf.
  assert (forall o, deepUpdate o patchObj = Normal (merge o patchObj)) as Hm
    by (intros o; destruct patchObj; try discriminate; reflexivity).
  rewrite !Hm. intros [= <-]. f_equal.
  now apply (merge_idempotent _ _ (Nat.le_refl _)).
Qed.

Lemma deepUpdate_idempotent_witness :
  deepUpdate
    (JObject [("a"%string, JNumber 1);
              ("b"%string, JObject [("c"%string, JNumber 9);
                                    ("d"%string, JNumber 3)])])
    (JObject [("b"%string, JObject [("c"%string, JNumber 9)])])
  = Normal (JObject [("a"%string, JNumber 1);
                     ("b"%string, JObject [("c"%string, JNumber 9);
                                           ("d"%string, JNumber 3)])]).
Proof.
  apply (deepUpdate_idempotent
           (JObject [("a"%string, JNumber 1);
                     ("b"%string, JObject [("c"%string, JNumber 2);
                                           ("d"%string, JNumber 3)])]));
    reflexivity.
Defined.
